(** * fedcloudclient.checkin: token resolution, validation and VO listing

    A shallow embedding of [fedcloudclient/checkin.py].  The module talks to
    four collaborators that are not part of it: the PyJWT decoder, the
    [requests] HTTP client, the oidc-agent client library and the system
    clock.  They are gathered in the record [Env]; every function of the
    module is a function of such an environment and yields an outcome
    (a returned value or a raised exception) together with the trace of the
    observable actions it performed (lines printed, HTTP requests sent,
    agent calls made).

    Text is made of 8-bit characters, compared by their codes as Python
    compares code points.  Times are whole seconds: the module converts
    both the [exp] claim and the clock with [int] before it compares
    them. *)

From stdpp Require Import base option list gmap strings pretty sorting.
From Stdlib Require Import ZArith Ascii String Lia.

Local Set Warnings "-register-all".

Local Open Scope Z_scope.

(** ** Python values *)

(** A Python [float] is a dyadic rational, an infinity or a NaN.  Only the
    conversion to an integer is needed here, and it is exact. *)
Inductive pyfloat :=
| FNan
| FInf (negative : bool)
| FFinite (mantissa exponent : Z).   (* mantissa * 2 ^ exponent *)

(** The values [json.loads] produces; [PNone] is Python's [None]. *)
Inductive pyval :=
| PNone
| PBool (b : bool)
| PInt (z : Z)
| PFloat (f : pyfloat)
| PStr (s : string)
| PList (l : list pyval)
| PDict (d : gmap string pyval).

(** ** Exceptions *)

Inductive exc_class :=
| BaseException | Exception | SystemExit
| TypeError | KeyError | ValueError | OverflowError | AttributeError
| OSError
| RequestException | HTTPError | ConnectionError | JSONDecodeError
| PyJWTError | InvalidTokenError | DecodeError | ExpiredSignatureError
| OidcAgentError | OidcAgentConnectError.

Global Instance exc_class_eq_dec : EqDecision exc_class.
Proof. solve_decision. Defined.

(** The base class of each exception class, among the classes listed
    ([None] for the root). *)
Definition base_class (c : exc_class) : option exc_class :=
  match c with
  | BaseException => None
  | Exception | SystemExit => Some BaseException
  | TypeError | KeyError | ValueError | OverflowError | AttributeError
  | OSError | PyJWTError | OidcAgentError => Some Exception
  | RequestException => Some OSError
  | HTTPError | ConnectionError | JSONDecodeError => Some RequestException
  | InvalidTokenError => Some PyJWTError
  | DecodeError | ExpiredSignatureError => Some InvalidTokenError
  | OidcAgentConnectError => Some OidcAgentError
  end.

Fixpoint issubclass_fuel (n : nat) (c parent : exc_class) : bool :=
  if decide (c = parent) then true
  else match n with
       | O => false
       | S n' => match base_class c with
                 | Some b => issubclass_fuel n' b parent
                 | None => false
                 end
       end.

(** The class tree above is four levels deep. *)
Definition issubclass : exc_class -> exc_class -> bool := issubclass_fuel 4.

(** A raised exception: its class and its text, [str(exception)].  The
    module reads the text of the agent's errors only; faults raised by the
    interpreter itself and by [raise_for_status] carry the empty text. *)
Inductive exception := Exc (cls : exc_class) (msg : string).

Definition exc_cls (e : exception) : exc_class := let 'Exc c _ := e in c.
Definition exc_str (e : exception) : string := let 'Exc _ m := e in m.

(** [except cls:] catches [e]. *)
Definition isinstance (e : exception) (cls : exc_class) : bool :=
  issubclass (exc_cls e) cls.

(** ** Outcomes, observable actions and the monad of the module *)

Inductive result (A : Type) :=
| Return (a : A)
| Raise (e : exception).
Arguments Return {A} a.
Arguments Raise {A} e.

Inductive event :=
| EvStderr (line : string)
| EvStdout (line : string)
| EvHttpPost (url : string) (json : pyval)
| EvHttpGet (url : pyval) (headers : list (string * string))
| EvAgent (account : string) (min_valid_period : Z) (application_hint : string).

Definition trace := list event.

Definition M (A : Type) : Type := result A * trace.

Definition ret {A} (a : A) : M A := (Return a, []).
Definition raise {A} (e : exception) : M A := (Raise e, []).
Definition emit (ev : event) : M unit := (Return tt, [ev]).
Definition lift {A} (r : result A) : M A := (r, []).

Definition bind {A B} (m : M A) (k : A -> M B) : M B :=
  match m with
  | (Return a, t) => let '(r, t') := k a in (r, t ++ t')
  | (Raise e, t) => (Raise e, t)
  end.

Notation "x <- m ;; k" := (bind m (fun x => k))
  (at level 100, m at next level, right associativity).
Notation "m ;;; k" := (bind m (fun _ => k))
  (at level 100, right associativity).

Definition outcome {A} (m : M A) : result A := fst m.
Definition actions {A} (m : M A) : trace := snd m.

(** ** The collaborators *)

(** What [requests] hands back: the status code and what [.json()] gives
    (it raises when the body is not JSON). *)
Record response := {
  status_code : Z;
  json : result pyval
}.

(** Each collaborator is a function of its arguments: no function of the
    module calls one twice with the same arguments. *)
Record Env := {
  (** [jwt.decode(token, options={"verify_signature": False})] *)
  jwt_decode : string -> result (gmap string pyval);
  (** [int(time.time())] *)
  time_time : Z;
  (** [int(s)] for a [str]; [None] when it raises [ValueError] *)
  int_of_str : string -> option Z;
  (** [datetime.utcfromtimestamp(t).strftime("%Y-%m-%d %H:%M:%S")] *)
  utcfromtimestamp_strftime : Z -> result string;
  (** [requests.post(url, json=data)] *)
  requests_post : string -> pyval -> result response;
  (** [requests.get(url, headers=headers)] *)
  requests_get : pyval -> list (string * string) -> result response;
  (** [agent.get_access_token(account, min_valid_period, application_hint)] *)
  agent_get_access_token : string -> Z -> string -> result string
}.

(** ** Python primitives used by the module *)

(** A command-line parameter is [None] or a [str]. *)
Definition param := option string.

(** [if x:] for such a parameter. *)
Definition truthy (x : param) : bool :=
  match x with
  | Some s => negb (String.eqb s "")
  | None => false
  end.

Definition param_val (x : param) : pyval :=
  match x with
  | Some s => PStr s
  | None => PNone
  end.

(** [x + suffix] where [suffix] is a [str]. *)
Definition py_add_str (x : pyval) (suffix : string) : M string :=
  match x with
  | PStr s => ret (s +:+ suffix)
  | _ => raise (Exc TypeError "")
  end.

(** [x[key]] where [key] is a [str]. *)
Definition py_getitem (x : pyval) (key : string) : M pyval :=
  match x with
  | PDict d => match d !! key with
               | Some v => ret v
               | None => raise (Exc KeyError "")
               end
  | _ => raise (Exc TypeError "")
  end.

(** [x.get(key, default)] *)
Definition py_get (x : pyval) (key : string) (default : pyval) : M pyval :=
  match x with
  | PDict d => ret (from_option id default (d !! key))
  | _ => raise (Exc AttributeError "")
  end.

(** [int(f)] for a float: truncation towards zero. *)
Definition int_of_float (f : pyfloat) : M Z :=
  match f with
  | FNan => raise (Exc ValueError "")
  | FInf _ => raise (Exc OverflowError "")
  | FFinite m e => ret (if 0 <=? e then m * 2 ^ e else Z.quot m (2 ^ (- e)))
  end.

(** [int(x)] *)
Definition py_int (env : Env) (x : pyval) : M Z :=
  match x with
  | PBool b => ret (Z.b2z b)
  | PInt z => ret z
  | PFloat f => int_of_float f
  | PStr s => match int_of_str env s with
              | Some z => ret z
              | None => raise (Exc ValueError "")
              end
  | PNone | PList _ | PDict _ => raise (Exc TypeError "")
  end.

(** [response.raise_for_status()]: an [HTTPError] for 4xx and 5xx. *)
Definition raise_for_status (r : response) : M unit :=
  if (400 <=? status_code r) && (status_code r <? 600)
  then raise (Exc HTTPError "")
  else ret tt.

(** ** The module *)

(** Minimal lifetime of the access token is 30s and max 24h *)
Definition _MIN_ACCESS_TOKEN_TIME : Z := 30.

Definition VO_PATTERN : string :=
  "urn:mace:egi.eu:group:(.+?):(.+:)*role=member#aai.egi.eu".

(** Print error message to stderr if not quiet *)
Definition print_error (message : string) (quiet : bool) : M unit :=
  if negb quiet then emit (EvStderr message) else ret tt.

(** Decoding access token to a dict *)
Definition decode_token (env : Env) (oidc_access_token : string) : M pyval :=
  match jwt_decode env oidc_access_token with
  | Return payload => ret (PDict payload)
  | Raise e =>
      if isinstance e InvalidTokenError
      then print_error "Error: Invalid access token." false ;;; ret PNone
      else raise e
  end.

(** Get access token from oidc-agent *)
Definition get_token_from_oidc_agent (env : Env) (oidc_agent_account : param)
  : M pyval :=
  if truthy oidc_agent_account then
    let account := default "" oidc_agent_account in
    emit (EvAgent account _MIN_ACCESS_TOKEN_TIME "fedcloudclient") ;;;
    match agent_get_access_token env account _MIN_ACCESS_TOKEN_TIME
            "fedcloudclient" with
    | Return access_token => ret (PStr access_token)
    | Raise exception =>
        if isinstance exception OidcAgentError
        then
          print_error
            ("Error during getting access token from oidc-agent" +:+
             String "010" "Error message: " +:+ exc_str exception)
            false ;;;
          ret PNone
        else raise exception
    end
  else ret PNone.

(** The body of the exchange request:
    [{"grant_type": "mytoken", "mytoken": mytoken}]. *)
Definition exchange_data (mytoken : pyval) : pyval :=
  PDict (<["grant_type" := PStr "mytoken"]> (<["mytoken" := mytoken]> ∅)).

Definition get_token_from_mytoken_server (env : Env)
  (mytoken : pyval) (mytoken_server : pyval) : M pyval :=
  let data := exchange_data mytoken in
  url <- py_add_str mytoken_server "/api/v0/token/access" ;;
  emit (EvHttpPost url data) ;;;
  req <- lift (requests_post env url data) ;;
  raise_for_status req ;;;
  body <- lift (json req) ;;
  py_get body "access_token" PNone.

(** The lines [check_token] prints when [verbose]. *)
Definition report_expiry (env : Env) (exp_timestamp exp_time_in_sec : Z)
  : M unit :=
  exp_time_str <- lift (utcfromtimestamp_strftime env exp_timestamp) ;;
  emit (EvStdout ("Token is valid until " +:+ exp_time_str +:+ " UTC")) ;;;
  if exp_time_in_sec <? 24 * 3600
  then emit (EvStdout ("Token expires in " +:+ pretty exp_time_in_sec
                       +:+ " seconds"))
  else
    let exp_time_in_days := exp_time_in_sec `div` (24 * 3600) in
    emit (EvStdout ("Token expires in " +:+ pretty exp_time_in_days
                    +:+ " days")).

(** Check validity of access token *)
Definition check_token (env : Env) (oidc_token : string) (verbose : bool)
  : M pyval :=
  payload <- decode_token env oidc_token ;;
  match payload with
  | PNone => ret PNone
  | _ =>
      exp <- py_getitem payload "exp" ;;
      exp_timestamp <- py_int env exp ;;
      let current_timestamp := time_time env in
      let exp_time_in_sec := exp_timestamp - current_timestamp in
      if exp_time_in_sec <? _MIN_ACCESS_TOKEN_TIME then
        print_error "Error: Expired access token." true ;;;
        ret PNone
      else
        (if verbose
         then report_expiry env exp_timestamp exp_time_in_sec
         else ret tt) ;;;
        ret (PStr oidc_token)
  end.

(** Get EGI Check-in ID from access token *)
Definition get_checkin_id (env : Env) (oidc_token : string) : M pyval :=
  payload <- decode_token env oidc_token ;;
  match payload with
  | PNone => ret PNone
  | _ => py_getitem payload "sub"
  end.

Definition no_token_message : string :=
  "Error: An access token is needed for the operation. You can specify " +:+
  "access token directly via --oidc-access-token option or use oidc-agent " +:+
  "via --oidc-agent-account or mytoken via --mytoken".

(** Get access token: use the existing token, or generate a new one from
    the mytoken server or from oidc-agent. *)
Definition get_access_token (env : Env)
  (oidc_access_token oidc_agent_account mytoken : param)
  (mytoken_server : pyval) : M pyval :=
  (* access token via parameter has the highest priority *)
  if truthy oidc_access_token then
    check_token env (default "" oidc_access_token) false
  (* then try to get access token from mytoken server *)
  else if truthy mytoken then
    get_token_from_mytoken_server env (param_val mytoken) mytoken_server
  (* then, try to get access token from oidc-agent *)
  else if truthy oidc_agent_account then
    get_token_from_oidc_agent env oidc_agent_account
  (* Nothing available *)
  else raise (Exc SystemExit no_token_message).

(** ** Regular expressions: the part of [re] that [VO_PATTERN] uses *)

(** Literal characters, [.], numbered capture groups, sequences, and the
    repetition [*] in its greedy and lazy ([*?]) forms; [r+] is [r r*]. *)
Inductive regex :=
| REmpty
| RChar (c : ascii)
| RAny
| RSeq (r1 r2 : regex)
| RGroup (n : nat) (r : regex)
| RStar (greedy : bool) (r : regex).

Definition is_special (c : ascii) : bool :=
  bool_decide (c ∈ String.list_ascii_of_string "[]{}|\^$*+?").

(** [re.compile]: [n] counts the groups opened so far; the result is the
    parsed sequence, the unread rest of the pattern and the new count.
    Syntax outside the fragment above is refused. *)
Fixpoint parse_seq (fuel : nat) (p : string) (n : nat)
  : option (regex * string * nat) :=
  match fuel with
  | O => None
  | S fuel' =>
      match p with
      | EmptyString => Some (REmpty, p, n)
      | String ")" _ => Some (REmpty, p, n)
      | String c rest =>
          let atom :=
            if Ascii.eqb c "(" then
              match parse_seq fuel' rest (S n) with
              | Some (r, String ")" rest', n') =>
                  Some (RGroup (S n) r, rest', n')
              | _ => None
              end
            else if Ascii.eqb c "." then Some (RAny, rest, n)
            else if is_special c then None
            else Some (RChar c, rest, n) in
          match atom with
          | None => None
          | Some (a, rest1, n1) =>
              let '(item, rest2) :=
                match rest1 with
                | String "*" (String "?" r) => (RStar false a, r)
                | String "*" r => (RStar true a, r)
                | String "+" (String "?" r) => (RSeq a (RStar false a), r)
                | String "+" r => (RSeq a (RStar true a), r)
                | _ => (a, rest1)
                end in
              match rest2 with
              | String "?" _ => None
              | _ =>
                  match parse_seq fuel' rest2 n1 with
                  | Some (tail, rest3, n3) => Some (RSeq item tail, rest3, n3)
                  | None => None
                  end
              end
          end
      end
  end.

Definition re_compile (p : string) : option regex :=
  match parse_seq (S (String.length p)) p 0 with
  | Some (r, EmptyString, _) => Some r
  | _ => None
  end.

(** The text of each group that took part in the match. *)
Abbreviation captures := (gmap nat string).

(** The part of [s] read when [s'] is what remains. *)
Definition consumed (s s' : string) : string :=
  String.substring 0 (String.length s - String.length s') s.

Definition newline : ascii := "010"%char.

(** What is left to match after a subexpression: it receives the unread
    text and the groups captured so far. *)
Definition continuation := string -> captures -> option captures.

(** The rounds of a repetition whose body is matched by [step].  A greedy
    [*] tries one more round before it tries to go on, a lazy one the other
    way round; every round must read at least one character, so the length
    of the text bounds the number of rounds. *)
Fixpoint star_rounds (step : string -> captures -> continuation ->
                             option captures)
  (greedy : bool) (k : continuation) (fuel : nat) (s : string) (c : captures)
  : option captures :=
  match fuel with
  | O => k s c
  | S fuel' =>
      let more :=
        step s c (fun s' c' =>
          if (String.length s' <? String.length s)%nat
          then star_rounds step greedy k fuel' s' c'
          else None) in
      if greedy
      then match more with
           | Some m => Some m
           | None => k s c
           end
      else match k s c with
           | Some m => Some m
           | None => more
           end
  end.

(** The backtracking matcher: the first way of matching [r] at the start of
    [s] with which the continuation [k] succeeds. *)
Fixpoint rmatch (r : regex) (s : string) (c : captures) (k : continuation)
  {struct r} : option captures :=
  match r with
  | REmpty => k s c
  | RChar a =>
      match s with
      | String b s' => if Ascii.eqb a b then k s' c else None
      | EmptyString => None
      end
  | RAny =>
      match s with
      | String b s' => if Ascii.eqb b newline then None else k s' c
      | EmptyString => None
      end
  | RSeq r1 r2 => rmatch r1 s c (fun s' c' => rmatch r2 s' c' k)
  | RGroup n r1 =>
      rmatch r1 s c (fun s' c' => k s' (<[n := consumed s s']> c'))
  | RStar greedy r1 =>
      star_rounds (rmatch r1) greedy k (String.length s) s c
  end.

(** [pattern.match(text)]: the match is anchored at the start of [text]
    only. *)
Definition re_match (r : regex) (text : string) : option captures :=
  rmatch r text ∅ (fun _ c => Some c).

(** [vo.groups()[0]], for a pattern whose first group has taken part. *)
Definition group1 (m : captures) : option string := m !! 1%nat.

(** ** Iteration, sets and sorting *)

(** [for x in v]: the items a loop over [v] visits (the characters of a
    [str], the keys of a [dict]). *)
Definition py_iter (v : pyval) : M (list pyval) :=
  match v with
  | PList l => ret l
  | PStr s => ret ((fun ch => PStr (String ch EmptyString))
                     <$> String.list_ascii_of_string s)
  | PDict d => ret (PStr <$> (map_to_list d).*1)
  | PNone | PBool _ | PInt _ | PFloat _ => raise (Exc TypeError "")
  end.

(** The order of [str]: lexicographic, character by character. *)
Definition str_le (s1 s2 : string) : Prop := String.leb s1 s2 = true.
Definition str_lt (s1 s2 : string) : Prop := String.ltb s1 s2 = true.

Global Instance str_le_dec : RelDecision str_le.
Proof. intros s1 s2. unfold str_le. apply _. Defined.

(** [sorted(vos)] for a set of strings. *)
Definition sorted (vos : gset string) : list string :=
  merge_sort str_le (elements vos).

(** ** The module, continued *)

(** Discover OIDC endpoints *)
Definition oidc_discover (env : Env) (oidc_url : pyval) : M pyval :=
  url <- py_add_str oidc_url "/.well-known/openid-configuration" ;;
  emit (EvHttpGet (PStr url) []) ;;;
  request <- lift (requests_get env (PStr url) []) ;;
  raise_for_status request ;;;
  lift (json request).

(** [re.compile(VO_PATTERN)], evaluated once. *)
Definition compiled_VO_PATTERN : regex :=
  Eval vm_compute in default REmpty (re_compile VO_PATTERN).

(** The loop of [token_list_vos] over the entitlements, from the set
    [vos] collected so far.  A claim that is not a [str] makes
    [pattern.match] raise; the first group of [VO_PATTERN] takes part in
    every match (see [group1_of_match] below), so the branch without it is
    never reached. *)
Fixpoint collect_vos (pattern : regex) (claims : list pyval)
  (vos : gset string) : M (gset string) :=
  match claims with
  | [] => ret vos
  | PStr claim :: claims' =>
      match re_match pattern claim with
      | Some vo =>
          match group1 vo with
          | Some g => collect_vos pattern claims' (vos ∪ {[ g ]})
          | None => raise (Exc TypeError "")
          end
      | None => collect_vos pattern claims' vos
      end
  | _ :: _ => raise (Exc TypeError "")
  end.

(** List VO memberships in EGI Check-in *)
Definition token_list_vos (env : Env) (oidc_access_token : string)
  : M (list string) :=
  payload <- decode_token env oidc_access_token ;;
  oidc_url <- py_getitem payload "iss" ;;
  oidc_ep <- oidc_discover env oidc_url ;;
  userinfo_endpoint <- py_getitem oidc_ep "userinfo_endpoint" ;;
  let headers := [("Authorization", "Bearer " +:+ oidc_access_token)] in
  emit (EvHttpGet userinfo_endpoint headers) ;;;
  request <- lift (requests_get env userinfo_endpoint headers) ;;
  raise_for_status request ;;;
  let pattern := compiled_VO_PATTERN in
  body <- lift (json request) ;;
  entitlements <- py_get body "eduperson_entitlement" (PList []) ;;
  claims <- py_iter entitlements ;;
  vos <- collect_vos pattern claims ∅ ;;
  ret (sorted vos).

(** ** The interpreter's exit

    What the process does with the outcome of a command: an uncaught
    [SystemExit] raised with a message prints the message to standard error
    and exits with status 1; any other uncaught exception exits with status
    1 as well (after a traceback, which is not modelled); a return exits
    with status 0. *)
Definition process_exit {A} (m : M A) : Z * trace :=
  match m with
  | (Return _, t) => (0, t)
  | (Raise (Exc SystemExit msg), t) => (1, t ++ [EvStderr msg])
  | (Raise _, t) => (1, t)
  end.

(** ** The commands *)

(** [sep.join(items)] *)
Fixpoint str_join (sep : string) (items : list string) : string :=
  match items with
  | [] => ""
  | x :: rest =>
      match rest with
      | [] => x
      | _ :: _ => x +:+ sep +:+ str_join sep rest
      end
  end.


(** List VO membership(s) of access token (the body of the command, for a
    [str] token). *)
Definition list_vos (env : Env) (access_token : string) : M unit :=
  vos <- token_list_vos env access_token ;;
  emit (EvStdout (str_join (String newline "") vos)).

(** ** Vocabulary of the statements *)

Definition calls_agent (ev : event) : bool :=
  match ev with
  | EvAgent _ _ _ => true
  | _ => false
  end.

Definition calls_http (ev : event) : bool :=
  match ev with
  | EvHttpPost _ _ | EvHttpGet _ _ => true
  | _ => false
  end.

(** No HTTP request and no agent call appears in the trace. *)
Definition stays_local (t : trace) : Prop :=
  Forall (fun ev => calls_http ev = false /\ calls_agent ev = false) t.

(** The remaining lifetime [check_token] computes for a token: the decoder
    accepts it, its payload has an [exp] claim, and [int(exp)] is [e]. *)
Definition expires_at (env : Env) (token : string) (e : Z) : Prop :=
  exists payload exp,
    jwt_decode env token = Return payload /\
    payload !! "exp" = Some exp /\
    py_int env exp = ret e.

(** The decoder rejects the token as invalid. *)
Definition malformed (env : Env) (token : string) : Prop :=
  exists e, jwt_decode env token = Raise e /\
            isinstance e InvalidTokenError = true.

(** The VO an entitlement stands for: the first group of its match. *)
Definition vo_of (claim : string) : option string :=
  re_match compiled_VO_PATTERN claim ≫= group1.

(** What it means for a word to match an expression, with the groups it
    captures on the way: [matches r w c c'] when [r] can read exactly [w],
    taking the captures from [c] to [c']. *)
Inductive matches : regex -> string -> captures -> captures -> Prop :=
| matches_empty c :
    matches REmpty "" c c
| matches_char a c :
    matches (RChar a) (String a "") c c
| matches_any b c :
    b <> newline ->
    matches RAny (String b "") c c
| matches_seq r1 r2 w1 w2 c c1 c2 :
    matches r1 w1 c c1 ->
    matches r2 w2 c1 c2 ->
    matches (RSeq r1 r2) (w1 +:+ w2) c c2
| matches_group n r w c c1 :
    matches r w c c1 ->
    matches (RGroup n r) w c (<[n := w]> c1)
| matches_star_stop greedy r c :
    matches (RStar greedy r) "" c c
| matches_star_round greedy r w1 w2 c c1 c2 :
    matches r w1 c c1 ->
    w1 <> "" ->
    matches (RStar greedy r) w2 c1 c2 ->
    matches (RStar greedy r) (w1 +:+ w2) c c2.

(** The numbers of the groups of an expression. *)
Fixpoint groups_of (r : regex) : list nat :=
  match r with
  | REmpty | RChar _ | RAny => []
  | RSeq r1 r2 => groups_of r1 ++ groups_of r2
  | RGroup n r1 => n :: groups_of r1
  | RStar _ r1 => groups_of r1
  end.

(** No character of the string is a newline. *)
Definition one_line (s : string) : Prop :=
  Forall (fun ch => ch <> newline) (String.list_ascii_of_string s).

(** A matcher for [r] is sound when every success it reports comes from a
    word that matches [r] at the start of the text, followed by a success
    of the continuation on what remains. *)
Definition sound (step : string -> captures -> continuation -> option captures)
  (r : regex) : Prop :=
  forall s c k m,
    step s c k = Some m ->
    exists w s' c', s = w +:+ s' /\ matches r w c c' /\ k s' c' = Some m.

(** An expression without a literal newline matches one-line words only. *)
Fixpoint no_newline (r : regex) : Prop :=
  match r with
  | REmpty | RAny => True
  | RChar a => a <> newline
  | RSeq r1 r2 => no_newline r1 /\ no_newline r2
  | RGroup _ r1 | RStar _ r1 => no_newline r1
  end.

(** The entitlements of the worked example. *)
Definition example_entitlements : list string :=
  [ "urn:mace:egi.eu:group:vo.example.eu:role=member#aai.egi.eu";
    "urn:mace:egi.eu:group:vo.example.eu:role=manager#aai.egi.eu";
    "not-a-matching-string" ].

Abbreviation colon := (":"%char).

(** No character of the string is a colon. *)
Definition no_colon (s : string) : Prop :=
  Forall (fun ch => ch <> colon) (String.list_ascii_of_string s).

(** The role segments of a canonical entitlement: nothing, or one-line text
    of at least two characters that ends with a colon. *)
Definition role_segments (roles : string) : Prop :=
  roles = "" \/
  exists a seg, roles = String a (seg +:+ ":")
                /\ a <> newline /\ one_line seg.

(** The shape of an entitlement that [VO_PATTERN] matches with [group] as
    its first group; [d1], [d2] and [d3] stand where the pattern has a dot
    outside the groups, and [rest] is what follows the match. *)
Definition vo_shape (claim group : string) : Prop :=
  exists d1 d2 d3 roles rest,
    claim = "urn:mace:egi" +:+ String d1 "eu:group:" +:+ group +:+ ":"
              +:+ roles +:+ "role=member#aai" +:+ String d2 "egi"
              +:+ String d3 "eu" +:+ rest
    /\ group <> "" /\ one_line group /\ one_line roles
    /\ d1 <> newline /\ d2 <> newline /\ d3 <> newline.

(** The identity provider answers the two requests of [token_list_vos] for
    this token, and the user-info document lists the entitlements [ents]. *)
Definition reports_entitlements (env : Env) (token : string)
  (ents : list string) : Prop :=
  exists payload issuer discovery endpoints endpoint userinfo body,
    jwt_decode env token = Return payload /\
    payload !! "iss" = Some (PStr issuer) /\
    requests_get env
      (PStr (issuer +:+ "/.well-known/openid-configuration")) []
      = Return discovery /\
    ~ 400 <= status_code discovery < 600 /\
    json discovery = Return (PDict endpoints) /\
    endpoints !! "userinfo_endpoint" = Some endpoint /\
    requests_get env endpoint [("Authorization", "Bearer " +:+ token)]
      = Return userinfo /\
    ~ 400 <= status_code userinfo < 600 /\
    json userinfo = Return (PDict body) /\
    body !! "eduperson_entitlement" = Some (PList (PStr <$> ents)).

(** The response is a JSON object without the [access_token] field. *)
Definition lacks_access_token (resp : response) : Prop :=
  exists d, json resp = Return (PDict d) /\ d !! "access_token" = None.

(** The reading of the exchange adapter under which a response without the
    field makes the exchange fail. *)
Definition exchange_fails_on_missing_field : Prop :=
  forall env mytoken server resp,
    requests_post env (server +:+ "/api/v0/token/access")
      (exchange_data mytoken) = Return resp ->
    lacks_access_token resp ->
    exists e,
      outcome (get_token_from_mytoken_server env mytoken (PStr server))
      = Raise e.

(** [needle in haystack] *)
Fixpoint is_substring (needle haystack : string) : bool :=
  String.prefix needle haystack ||
  match haystack with
  | EmptyString => false
  | String _ rest => is_substring needle rest
  end.

(** The same environment with another HTTP client and another agent. *)
Definition with_network (env : Env)
  (post : string -> pyval -> result response)
  (get : pyval -> list (string * string) -> result response)
  (agent : string -> Z -> string -> result string) : Env :=
  {| jwt_decode := jwt_decode env;
     time_time := time_time env;
     int_of_str := int_of_str env;
     utcfromtimestamp_strftime := utcfromtimestamp_strftime env;
     requests_post := post;
     requests_get := get;
     agent_get_access_token := agent |}.

(** The same environment with another decoder, clock and [int]. *)
Definition with_decoder (env : Env)
  (decoder : string -> result (gmap string pyval)) (now : Z)
  (to_int : string -> option Z) : Env :=
  {| jwt_decode := decoder;
     time_time := now;
     int_of_str := to_int;
     utcfromtimestamp_strftime := utcfromtimestamp_strftime env;
     requests_post := requests_post env;
     requests_get := requests_get env;
     agent_get_access_token := agent_get_access_token env |}.

(** ** Vocabulary of the further statements *)

(** [text.split("\n")] *)
Fixpoint split_lines (text : string) : list string :=
  match text with
  | EmptyString => [""]
  | String ch text' =>
      if Ascii.eqb ch newline then "" :: split_lines text'
      else match split_lines text' with
           | line :: lines => String ch line :: lines
           | [] => [String ch ""]
           end
  end.



(** The reading of [decode_token] under which every token that the decoder
    does not turn into claims gives [None], whatever the decoder does with
    it. *)
Definition decode_token_never_raises : Prop :=
  forall env token,
    (forall payload, jwt_decode env token <> Return payload) ->
    outcome (decode_token env token) = Return PNone.

(** What the trace shows on standard output. *)
Definition stdout_lines (t : trace) : list string :=
  omap (fun ev => match ev with
                  | EvStdout line => Some line
                  | _ => None
                  end) t.

(** The identity provider answers the two requests of [token_list_vos] for
    this token, and the user-info document is the JSON value [body]. *)
Definition userinfo_document (env : Env) (token : string) (body : pyval)
  : Prop :=
  exists payload issuer discovery endpoints endpoint userinfo,
    jwt_decode env token = Return payload /\
    payload !! "iss" = Some (PStr issuer) /\
    requests_get env
      (PStr (issuer +:+ "/.well-known/openid-configuration")) []
      = Return discovery /\
    ~ 400 <= status_code discovery < 600 /\
    json discovery = Return (PDict endpoints) /\
    endpoints !! "userinfo_endpoint" = Some endpoint /\
    requests_get env endpoint [("Authorization", "Bearer " +:+ token)]
      = Return userinfo /\
    ~ 400 <= status_code userinfo < 600 /\
    json userinfo = Return body.

(** The value is not a [str]. *)
Definition not_str (v : pyval) : Prop := forall s, v <> PStr s.

(** What [token_list_vos] does once it holds the endpoints document. *)
Definition after_discovery (env : Env) (token : string) (oidc_ep : pyval)
  : M (list string) :=
  userinfo_endpoint <- py_getitem oidc_ep "userinfo_endpoint" ;;
  let headers := [("Authorization", "Bearer " +:+ token)] in
  emit (EvHttpGet userinfo_endpoint headers) ;;;
  request <- lift (requests_get env userinfo_endpoint headers) ;;
  raise_for_status request ;;;
  let pattern := compiled_VO_PATTERN in
  body <- lift (json request) ;;
  entitlements <- py_get body "eduperson_entitlement" (PList []) ;;
  claims <- py_iter entitlements ;;
  vos <- collect_vos pattern claims ∅ ;;
  ret (sorted vos).

(** What it does once it holds the user-info document. *)
Definition after_userinfo (body : pyval) : M (list string) :=
  entitlements <- py_get body "eduperson_entitlement" (PList []) ;;
  claims <- py_iter entitlements ;;
  vos <- collect_vos compiled_VO_PATTERN claims ∅ ;;
  ret (sorted vos).

(** ** A test double for the collaborators

    A small, fixed environment in the manner of the fakes a unit test would
    inject: a decoder that knows four tokens, a clock stopped at 1000, an
    exchange server with one mytoken, an identity provider with one user
    and an agent with one account. *)
Module Fake.

Definition issuer : string := "https://aai.egi.eu/oidc".

Definition claims_of (exp : option pyval) : gmap string pyval :=
  let base := <["sub" := PStr "user@egi.eu"]>
              (<["iss" := PStr issuer]> ∅) in
  match exp with
  | Some e => <["exp" := e]> base
  | None => base
  end.

Definition decode (token : string) : result (gmap string pyval) :=
  if String.eqb token "fresh.token.sig" then
    Return (claims_of (Some (PInt 1030)))
  else if String.eqb token "stale.token.sig" then
    Return (claims_of (Some (PInt 1029)))
  else if String.eqb token "text.token.sig" then
    Return (claims_of (Some (PStr "4600")))
  else if String.eqb token "noexp.token.sig" then
    Return (claims_of None)
  else Raise (Exc DecodeError "Not enough segments").

Definition digit_of (c : ascii) : option Z :=
  let n := Z.of_N (N_of_ascii c) in
  if (48 <=? n) && (n <=? 57) then Some (n - 48) else None.

Fixpoint digits (s : string) (acc : Z) : option Z :=
  match s with
  | EmptyString => Some acc
  | String c s' => match digit_of c with
                   | Some d => digits s' (10 * acc + d)
                   | None => None
                   end
  end.

(** Plain decimal numerals only. *)
Definition parse_int (s : string) : option Z :=
  match s with
  | EmptyString => None
  | _ => digits s 0
  end.

Definition strftime (t : Z) : result string :=
  if (0 <=? t) && (t <? 86400) then Return "1970-01-01 (first day)"
  else Raise (Exc OverflowError "").

Definition exchange_url : string :=
  "https://mytoken.data.kit.edu/api/v0/token/access".

Definition post (url : string) (data : pyval) : result response :=
  if String.eqb url exchange_url then
    match data with
    | PDict d =>
        match d !! "mytoken" with
        | Some (PStr "good-mytoken") =>
            Return {| status_code := 200;
                      json := Return (PDict (<["access_token" :=
                                                PStr "abc.def.ghi"]> ∅)) |}
        | Some (PStr "odd-mytoken") =>
            Return {| status_code := 200;
                      json := Return (PDict (<["expires_in" :=
                                                PInt 3600]> ∅)) |}
        | _ =>
            Return {| status_code := 500;
                      json := Raise (Exc JSONDecodeError "") |}
        end
    | _ => Return {| status_code := 400;
                     json := Raise (Exc JSONDecodeError "") |}
    end
  else Raise (Exc ConnectionError "Name or service not known").

Definition entitlements : list string := example_entitlements.

Definition userinfo_url : string := "https://aai.egi.eu/oidc/userinfo".

Definition get (url : pyval) (headers : list (string * string))
  : result response :=
  match url with
  | PStr u =>
      if String.eqb u (issuer +:+ "/.well-known/openid-configuration") then
        Return {| status_code := 200;
                  json := Return (PDict (<["userinfo_endpoint" :=
                                            PStr userinfo_url]> ∅)) |}
      else if String.eqb u userinfo_url then
        Return {| status_code := 200;
                  json := Return (PDict (<["eduperson_entitlement" :=
                              PList (PStr <$> entitlements)]> ∅)) |}
      else Return {| status_code := 404;
                     json := Raise (Exc JSONDecodeError "") |}
  | _ => Raise (Exc RequestException "Invalid URL")
  end.

Definition agent (account : string) (min_valid_period : Z)
  (application_hint : string) : result string :=
  if String.eqb account "egi" then Return "agent.token.sig"
  else Raise (Exc OidcAgentError "Account not loaded").

Definition env : Env :=
  {| jwt_decode := decode;
     time_time := 1000;
     int_of_str := parse_int;
     utcfromtimestamp_strftime := strftime;
     requests_post := post;
     requests_get := get;
     agent_get_access_token := agent |}.

End Fake.

(** ** Further test doubles

    The environment of [Fake] with an identity provider that gives the
    first answer to the request without headers (the discovery) and the
    second to the request with headers (the user-info), and with an agent
    of one's choice. *)
Module Scenario.

Definition get_with (discovery userinfo : result response)
  (url : pyval) (headers : list (string * string)) : result response :=
  match headers with
  | [] => discovery
  | _ :: _ => userinfo
  end.

Definition ok (body : pyval) : result response :=
  Return {| status_code := 200; json := Return body |}.

Definition discovery_ok : result response :=
  ok (PDict (<["userinfo_endpoint" := PStr Fake.userinfo_url]> ∅)).

(** A user-info document with this [eduperson_entitlement]. *)
Definition userinfo (entitlements : pyval) : gmap string pyval :=
  <["eduperson_entitlement" := entitlements]> ∅.

Definition member_entitlement : string :=
  "urn:mace:egi.eu:group:vo.example.eu:role=member#aai.egi.eu".

Definition provider (discovery userinfo : result response) : Env :=
  with_network Fake.env Fake.post (get_with discovery userinfo) Fake.agent.

(** An identity provider whose user-info document is [body]. *)
Definition answering (body : pyval) : Env :=
  provider discovery_ok (ok body).

(** A token with a character that UTF-8 cannot encode (a lone surrogate,
    as Python makes of an undecodable byte of the command line), written
    here with its escape spelled out. *)
Definition unencodable_token : string := "fresh.token.\udc80".

(** What the decoder does with it: the [UnicodeEncodeError] of
    [token.encode("utf-8")], a [ValueError]. *)
Definition encode_error : exception :=
  Exc ValueError
    "'utf-8' codec can't encode character '\udc80': surrogates not allowed".

(** The decoder of [Fake], which in addition cannot encode that token. *)
Definition strict_decode (token : string) : result (gmap string pyval) :=
  if String.eqb token unencodable_token then Raise encode_error
  else Fake.decode token.

Definition strict_jwt : Env :=
  with_decoder Fake.env strict_decode 1000 Fake.parse_int.

Definition with_agent
  (agent : string -> Z -> string -> result string) : Env :=
  with_network Fake.env Fake.post Fake.get agent.

End Scenario.

(** * Properties *)

(** ** The monad *)

Lemma bind_ret {A B} (a : A) (k : A -> M B) : bind (ret a) k = k a.
Proof. unfold bind, ret. destruct (k a) as [r t]. reflexivity. Qed.

Lemma bind_raise {A B} (e : exception) (k : A -> M B) :
  bind (raise e) k = raise e.
Proof. reflexivity. Qed.

Lemma bind_lift_return {A B} (a : A) (k : A -> M B) :
  bind (lift (Return a)) k = k a.
Proof. apply bind_ret. Qed.

Lemma bind_lift_raise {A B} (e : exception) (k : A -> M B) :
  bind (lift (Raise e)) k = raise e.
Proof. reflexivity. Qed.

Lemma bind_emit {B} (ev : event) (k : unit -> M B) :
  bind (emit ev) k = (outcome (k tt), ev :: actions (k tt)).
Proof. unfold bind, emit. destruct (k tt) as [r t]. reflexivity. Qed.

Lemma print_error_spec (message : string) (quiet : bool) :
  print_error message quiet =
    (Return tt, if quiet then [] else [EvStderr message]).
Proof. by destruct quiet. Qed.

(** ** [decode_token] *)

Lemma decode_token_accepts env token payload :
  jwt_decode env token = Return payload ->
  decode_token env token = ret (PDict payload).
Proof. intros H. unfold decode_token. by rewrite H. Qed.

Lemma decode_token_rejects env token :
  malformed env token ->
  decode_token env token =
    (Return PNone, [EvStderr "Error: Invalid access token."]).
Proof. intros (e & H & Hi). unfold decode_token. by rewrite H, Hi. Qed.

(** ** [check_token] *)

Lemma check_token_unfold env token verbose payload exp e :
  jwt_decode env token = Return payload ->
  payload !! "exp" = Some exp ->
  py_int env exp = ret e ->
  check_token env token verbose =
    if e - time_time env <? _MIN_ACCESS_TOKEN_TIME
    then (Return PNone, [])
    else ((if verbose
           then report_expiry env e (e - time_time env)
           else ret tt) ;;; ret (PStr token)).
Proof.
  intros Hd Hexp Hint. unfold check_token.
  rewrite (decode_token_accepts _ _ _ Hd), bind_ret.
  unfold py_getitem. rewrite Hexp, bind_ret, Hint, bind_ret.
  by destruct (e - time_time env <? _MIN_ACCESS_TOKEN_TIME).
Qed.

Lemma check_token_fresh env token e :
  expires_at env token e ->
  _MIN_ACCESS_TOKEN_TIME <= e - time_time env ->
  check_token env token false = (Return (PStr token), []).
Proof.
  intros (payload & exp & Hd & Hexp & Hint) Hle.
  rewrite (check_token_unfold _ _ _ _ _ _ Hd Hexp Hint).
  destruct (Z.ltb_spec (e - time_time env) _MIN_ACCESS_TOKEN_TIME); [lia|].
  reflexivity.
Qed.

Lemma check_token_stale env token verbose e :
  expires_at env token e ->
  e - time_time env < _MIN_ACCESS_TOKEN_TIME ->
  check_token env token verbose = (Return PNone, []).
Proof.
  intros (payload & exp & Hd & Hexp & Hint) Hlt.
  rewrite (check_token_unfold _ _ _ _ _ _ Hd Hexp Hint).
  destruct (Z.ltb_spec (e - time_time env) _MIN_ACCESS_TOKEN_TIME); [|lia].
  reflexivity.
Qed.

Lemma py_int_stays_local env v : actions (py_int env v) = [].
Proof.
  destruct v as [| | |f| | |]; simpl; try reflexivity.
  - by destruct f.
  - by destruct (int_of_str env s).
Qed.

Lemma check_token_quiet_stays_local env token :
  stays_local (actions (check_token env token false)).
Proof.
  unfold check_token, decode_token.
  destruct (jwt_decode env token) as [payload|e].
  - rewrite bind_ret. unfold py_getitem.
    destruct (payload !! "exp") as [exp|]; [|constructor].
    rewrite bind_ret.
    pose proof (py_int_stays_local env exp) as Hi.
    destruct (py_int env exp) as [[z|x] t]; simpl in Hi; subst t;
      [|constructor].
    change (Return z, []) with (ret (A:=Z) z). rewrite bind_ret.
    destruct (_ <? _); constructor.
  - destruct (isinstance e InvalidTokenError); repeat constructor.
Qed.

Lemma check_token_verbose_fresh env token e when :
  expires_at env token e ->
  _MIN_ACCESS_TOKEN_TIME <= e - time_time env ->
  utcfromtimestamp_strftime env e = Return when ->
  outcome (check_token env token true) = Return (PStr token).
Proof.
  intros (payload & exp & Hd & Hexp & Hint) Hle Hwhen.
  rewrite (check_token_unfold _ _ _ _ _ _ Hd Hexp Hint).
  destruct (Z.ltb_spec (e - time_time env) _MIN_ACCESS_TOKEN_TIME); [lia|].
  unfold report_expiry. rewrite Hwhen, bind_lift_return.
  by destruct (e - time_time env <? 24 * 3600).
Qed.


(** ** [get_access_token] *)

Lemma get_access_token_explicit env token account mytoken server :
  truthy (Some token) = true ->
  get_access_token env (Some token) account mytoken server
  = check_token env token false.
Proof. intros H. unfold get_access_token. by rewrite H. Qed.

(** C1.  Whenever an explicit access token is supplied (a non-empty string),
    [get_access_token] is [check_token] of that token, whatever the agent
    account and the mytoken are; it sends no HTTP request and makes no agent
    call, and its result is the same with any other HTTP client and agent;
    and when the token has at least [_MIN_ACCESS_TOKEN_TIME] seconds left
    the result is the supplied string itself. *)
Theorem explicit_token_has_priority env token account mytoken server :
  truthy (Some token) = true ->
  get_access_token env (Some token) account mytoken server
    = check_token env token false
  /\ stays_local
       (actions (get_access_token env (Some token) account mytoken server))
  /\ (forall post get agent,
        get_access_token (with_network env post get agent)
          (Some token) account mytoken server
        = get_access_token env (Some token) account mytoken server)
  /\ (forall e,
        expires_at env token e ->
        _MIN_ACCESS_TOKEN_TIME <= e - time_time env ->
        get_access_token env (Some token) account mytoken server
        = (Return (PStr token), [])).
Proof.
  intros H. rewrite (get_access_token_explicit _ _ _ _ _ H).
  split; [reflexivity|]. split; [|split].
  - apply check_token_quiet_stays_local.
  - intros post get agent.
    by rewrite (get_access_token_explicit _ _ _ _ _ H).
  - intros e He Hle. by apply check_token_fresh with e.
Qed.

Lemma explicit_token_has_priority_witness :
  truthy (Some "fresh.token.sig") = true
  /\ get_access_token Fake.env (Some "fresh.token.sig") (Some "egi")
       (Some "good-mytoken") (PStr "https://mytoken.data.kit.edu")
     = (Return (PStr "fresh.token.sig"), []).
Proof.
  split; [reflexivity|].
  refine (proj2 (proj2 (proj2 (explicit_token_has_priority Fake.env
            "fresh.token.sig" (Some "egi") (Some "good-mytoken")
            (PStr "https://mytoken.data.kit.edu") eq_refl))) 1030 _ _).
  - exists (Fake.claims_of (Some (PInt 1030))), (PInt 1030).
    repeat split; vm_compute; reflexivity.
  - vm_compute. discriminate.
Defined.

(** C2.  When the explicit token is supplied but has less than
    [_MIN_ACCESS_TOKEN_TIME] seconds left and an agent account is configured
    too, [get_access_token] returns [None] and has done nothing else: the
    agent is not called and no request is sent. *)
Theorem expired_explicit_token_no_fallback
  env token account mytoken server e :
  truthy (Some token) = true ->
  truthy account = true ->
  expires_at env token e ->
  e - time_time env < _MIN_ACCESS_TOKEN_TIME ->
  get_access_token env (Some token) account mytoken server
    = (Return PNone, [])
  /\ Forall (fun ev => calls_agent ev = false)
       (actions (get_access_token env (Some token) account mytoken server)).
Proof.
  intros H _ He Hlt. rewrite (get_access_token_explicit _ _ _ _ _ H).
  rewrite (check_token_stale _ _ _ _ He Hlt). split; [reflexivity|constructor].
Qed.

Lemma expired_explicit_token_no_fallback_witness :
  get_access_token Fake.env (Some "stale.token.sig") (Some "egi") None PNone
  = (Return PNone, []).
Proof.
  refine (proj1 (expired_explicit_token_no_fallback Fake.env
            "stale.token.sig" (Some "egi") None PNone 1029
            eq_refl eq_refl _ _)).
  - exists (Fake.claims_of (Some (PInt 1029))), (PInt 1029).
    repeat split; vm_compute; reflexivity.
  - vm_compute. reflexivity.
Defined.

(** C3.  For a token the decoder accepts and whose [exp] claim converts to
    the integer [e]: with [e - now >= 30] the call [check_token(token)]
    returns the token (and so does the verbose call, once the expiry date
    has been printed); with [e - now <= 29] it returns [None], verbose or
    not. *)
Theorem validity_boundary env token e :
  expires_at env token e ->
  (e - time_time env >= _MIN_ACCESS_TOKEN_TIME ->
     check_token env token false = (Return (PStr token), [])
     /\ forall when, utcfromtimestamp_strftime env e = Return when ->
          outcome (check_token env token true) = Return (PStr token))
  /\ (e - time_time env <= _MIN_ACCESS_TOKEN_TIME - 1 ->
      forall verbose, check_token env token verbose = (Return PNone, [])).
Proof.
  intros He. split.
  - intros Hge. split.
    + apply check_token_fresh with e; [done|lia].
    + intros when Hwhen.
      apply check_token_verbose_fresh with e when; [done|lia|done].
  - intros Hle verbose. apply check_token_stale with e; [done|lia].
Qed.

Lemma validity_boundary_witness :
  check_token Fake.env "fresh.token.sig" false
    = (Return (PStr "fresh.token.sig"), [])
  /\ check_token Fake.env "stale.token.sig" false = (Return PNone, []).
Proof.
  split.
  - refine (proj1 (proj1 (validity_boundary Fake.env "fresh.token.sig" 1030 _)
                     _)).
    + exists (Fake.claims_of (Some (PInt 1030))), (PInt 1030).
      repeat split; vm_compute; reflexivity.
    + vm_compute. discriminate.
  - refine (proj2 (validity_boundary Fake.env "stale.token.sig" 1029 _)
              _ false).
    + exists (Fake.claims_of (Some (PInt 1029))), (PInt 1029).
      repeat split; vm_compute; reflexivity.
    + vm_compute. discriminate.
Defined.

(** ** [get_token_from_mytoken_server] *)

Lemma exchange_unfold env mytoken server resp :
  requests_post env (server +:+ "/api/v0/token/access")
    (exchange_data mytoken) = Return resp ->
  get_token_from_mytoken_server env mytoken (PStr server) =
    (emit (EvHttpPost (server +:+ "/api/v0/token/access")
             (exchange_data mytoken)) ;;;
     raise_for_status resp ;;;
     body <- lift (json resp) ;;
     py_get body "access_token" PNone).
Proof.
  intros Hpost. unfold get_token_from_mytoken_server, py_add_str.
  rewrite bind_ret. cbv zeta. rewrite !bind_emit.
  by rewrite Hpost, bind_lift_return.
Qed.

Lemma raise_for_status_error resp :
  400 <= status_code resp < 600 ->
  raise_for_status resp = raise (Exc HTTPError "").
Proof.
  intros [H1 H2]. unfold raise_for_status.
  destruct (Z.leb_spec 400 (status_code resp)); [|lia].
  destruct (Z.ltb_spec (status_code resp) 600); [|lia].
  reflexivity.
Qed.

Lemma raise_for_status_pass resp :
  ~ 400 <= status_code resp < 600 ->
  raise_for_status resp = ret tt.
Proof.
  intros H. unfold raise_for_status.
  destruct (Z.leb_spec 400 (status_code resp));
    destruct (Z.ltb_spec (status_code resp) 600); try reflexivity.
  lia.
Qed.

Lemma exchange_success env mytoken server resp d :
  requests_post env (server +:+ "/api/v0/token/access")
    (exchange_data mytoken) = Return resp ->
  ~ 400 <= status_code resp < 600 ->
  json resp = Return (PDict d) ->
  get_token_from_mytoken_server env mytoken (PStr server) =
    (Return (from_option id PNone (d !! "access_token")),
     [EvHttpPost (server +:+ "/api/v0/token/access") (exchange_data mytoken)]).
Proof.
  intros Hpost Hok Hjson. rewrite (exchange_unfold _ _ _ _ Hpost).
  rewrite bind_emit, (raise_for_status_pass _ Hok), bind_ret.
  by rewrite Hjson.
Qed.

(** C4.  With no explicit token and a mytoken supplied, [get_access_token]
    is the exchange with the mytoken server and nothing more: it does not
    depend on the decoder or on the clock, which [check_token] reads, and
    whatever value the server sends as [access_token] is the result. *)
Theorem mytoken_result_is_not_checked env token account mytoken server :
  truthy token = false ->
  truthy mytoken = true ->
  get_access_token env token account mytoken server
    = get_token_from_mytoken_server env (param_val mytoken) server
  /\ (forall decoder now to_int,
        get_access_token (with_decoder env decoder now to_int)
          token account mytoken server
        = get_access_token env token account mytoken server)
  /\ (forall url resp d v,
        server = PStr url ->
        requests_post env (url +:+ "/api/v0/token/access")
          (exchange_data (param_val mytoken)) = Return resp ->
        ~ 400 <= status_code resp < 600 ->
        json resp = Return (PDict d) ->
        d !! "access_token" = Some v ->
        outcome (get_access_token env token account mytoken server)
        = Return v).
Proof.
  intros Ht Hm.
  assert (forall env', get_access_token env' token account mytoken server
            = get_token_from_mytoken_server env' (param_val mytoken) server)
    as Heq.
  { intros env'. unfold get_access_token. by rewrite Ht, Hm. }
  split; [apply Heq|]. split.
  - intros decoder now to_int. by rewrite !Heq.
  - intros url resp d v -> Hpost Hok Hjson Hv.
    rewrite Heq, (exchange_success _ _ _ _ _ Hpost Hok Hjson), Hv.
    reflexivity.
Qed.

Lemma mytoken_result_is_not_checked_witness :
  outcome (get_access_token Fake.env None (Some "egi") (Some "good-mytoken")
             (PStr "https://mytoken.data.kit.edu"))
  = Return (PStr "abc.def.ghi")
  /\ check_token Fake.env "abc.def.ghi" false
     = (Return PNone, [EvStderr "Error: Invalid access token."]).
Proof.
  split; [|reflexivity].
  refine (proj2 (proj2 (mytoken_result_is_not_checked Fake.env None
            (Some "egi") (Some "good-mytoken")
            (PStr "https://mytoken.data.kit.edu") eq_refl eq_refl))
          "https://mytoken.data.kit.edu" _
          (<["access_token" := PStr "abc.def.ghi"]> ∅) _
          eq_refl eq_refl _ eq_refl eq_refl).
  simpl. lia.
Defined.

(** C5.  With no explicit token, no mytoken and no agent account (each of
    them [None] or empty), [get_access_token] raises [SystemExit] with the
    message of the module before anything else is done; the process prints
    that message to standard error and exits with status 1; and the message
    names the three options. *)
Theorem no_source_is_fatal env token account mytoken server :
  truthy token = false ->
  truthy account = false ->
  truthy mytoken = false ->
  get_access_token env token account mytoken server
    = (Raise (Exc SystemExit no_token_message), [])
  /\ process_exit (get_access_token env token account mytoken server)
     = (1, [EvStderr no_token_message])
  /\ is_substring "--oidc-access-token" no_token_message = true
  /\ is_substring "--oidc-agent-account" no_token_message = true
  /\ is_substring "--mytoken" no_token_message = true.
Proof.
  intros Ht Ha Hm. unfold get_access_token. rewrite Ht, Ha, Hm.
  repeat split; vm_compute; reflexivity.
Qed.

Lemma no_source_is_fatal_witness :
  process_exit (get_access_token Fake.env (Some "") None (Some "")
                  (PStr "https://mytoken.data.kit.edu"))
  = (1, [EvStderr no_token_message]).
Proof.
  exact (proj1 (proj2 (no_source_is_fatal Fake.env (Some "") None (Some "")
           (PStr "https://mytoken.data.kit.edu") eq_refl eq_refl eq_refl))).
Defined.

(** C7, as the code has it.  When the exchange server answers with a 4xx or
    5xx status, the exchange raises [HTTPError]; when it answers with any
    other status and a JSON object, the exchange returns the value of the
    object's [access_token] field, and [None] when the object has no such
    field.  In each case exactly one request has been posted. *)
Theorem mytoken_exchange_outcomes env mytoken server resp :
  requests_post env (server +:+ "/api/v0/token/access")
    (exchange_data mytoken) = Return resp ->
  let posted := [EvHttpPost (server +:+ "/api/v0/token/access")
                   (exchange_data mytoken)] in
  (400 <= status_code resp < 600 ->
     get_token_from_mytoken_server env mytoken (PStr server)
     = (Raise (Exc HTTPError ""), posted))
  /\ (forall d v,
        ~ 400 <= status_code resp < 600 ->
        json resp = Return (PDict d) ->
        d !! "access_token" = Some v ->
        get_token_from_mytoken_server env mytoken (PStr server)
        = (Return v, posted))
  /\ (~ 400 <= status_code resp < 600 ->
      lacks_access_token resp ->
      get_token_from_mytoken_server env mytoken (PStr server)
      = (Return PNone, posted)).
Proof.
  intros Hpost posted. split; [|split].
  - intros Herr. rewrite (exchange_unfold _ _ _ _ Hpost).
    by rewrite bind_emit, (raise_for_status_error _ Herr).
  - intros d v Hok Hjson Hv.
    by rewrite (exchange_success _ _ _ _ _ Hpost Hok Hjson), Hv.
  - intros Hok (d & Hjson & Hv).
    by rewrite (exchange_success _ _ _ _ _ Hpost Hok Hjson), Hv.
Qed.

Lemma mytoken_exchange_outcomes_witness :
  get_token_from_mytoken_server Fake.env (PStr "bad-mytoken")
    (PStr "https://mytoken.data.kit.edu")
  = (Raise (Exc HTTPError ""),
     [EvHttpPost Fake.exchange_url (exchange_data (PStr "bad-mytoken"))]).
Proof.
  refine (proj1 (mytoken_exchange_outcomes Fake.env (PStr "bad-mytoken")
            "https://mytoken.data.kit.edu"
            {| status_code := 500; json := Raise (Exc JSONDecodeError "") |}
            eq_refl) _).
  simpl. lia.
Defined.

(** C7, as stated, fails: a 200 response whose JSON object has no
    [access_token] field makes the exchange return [None], and nothing is
    raised; and a response with a status that is neither a success nor an
    error for [raise_for_status] (here 300) still yields its
    [access_token]. *)
Lemma mytoken_missing_field_returns_none :
  get_token_from_mytoken_server Fake.env (PStr "odd-mytoken")
    (PStr "https://mytoken.data.kit.edu")
  = (Return PNone,
     [EvHttpPost Fake.exchange_url (exchange_data (PStr "odd-mytoken"))])
  /\ ~ exchange_fails_on_missing_field
  /\ outcome
       (get_token_from_mytoken_server
          (with_network Fake.env
             (fun _ _ =>
                Return {| status_code := 300;
                          json := Return (PDict (<["access_token" :=
                                             PStr "abc.def.ghi"]> ∅)) |})
             Fake.get Fake.agent)
          (PStr "good-mytoken") (PStr "https://mytoken.data.kit.edu"))
     = Return (PStr "abc.def.ghi").
Proof.
  split; [reflexivity|]. split; [|reflexivity].
  intros Hclaim.
  destruct (Hclaim Fake.env (PStr "odd-mytoken")
              "https://mytoken.data.kit.edu"
              {| status_code := 200;
                 json := Return (PDict (<["expires_in" := PInt 3600]> ∅)) |}
              eq_refl) as [e He].
  - exists (<["expires_in" := PInt 3600]> ∅). split; reflexivity.
  - discriminate He.
Qed.

(** ** Error reporting *)







(** C9, as the code has it.  A token the decoder rejects with an
    [InvalidTokenError] (its report of a wrong segment count, an invalid
    encoding or an invalid structure) gives [None] after the error line,
    and nothing is raised; a token the decoder accepts gives the decoder's
    claims and nothing else happens; any other exception of the decoder
    passes through [decode_token] unchanged, with nothing printed, and
    these are the only exceptions that leave it. *)
Theorem decode_token_catches_invalid_tokens env token :
  (malformed env token ->
     decode_token env token
     = (Return PNone, [EvStderr "Error: Invalid access token."]))
  /\ (forall payload,
        jwt_decode env token = Return payload ->
        decode_token env token = (Return (PDict payload), []))
  /\ (forall e,
        jwt_decode env token = Raise e ->
        isinstance e InvalidTokenError = false ->
        decode_token env token = (Raise e, []))
  /\ (forall e,
        outcome (decode_token env token) = Raise e ->
        jwt_decode env token = Raise e
        /\ isinstance e InvalidTokenError = false).
Proof.
  split; [apply decode_token_rejects|]. split; [|split].
  - apply decode_token_accepts.
  - intros e Hd He. unfold decode_token. by rewrite Hd, He.
  - intros e. unfold decode_token.
    destruct (jwt_decode env token) as [p|e']; [discriminate|].
    destruct (isinstance e' InvalidTokenError) eqn:Hi; [discriminate|].
    simpl. by intros [= ->].
Qed.

Lemma decode_token_catches_invalid_tokens_witness :
  decode_token Fake.env "only.two"
    = (Return PNone, [EvStderr "Error: Invalid access token."])
  /\ decode_token Fake.env "fresh.token.sig"
     = (Return (PDict (Fake.claims_of (Some (PInt 1030)))), [])
  /\ decode_token Scenario.strict_jwt Scenario.unencodable_token
     = (Raise Scenario.encode_error, []).
Proof.
  split; [|split].
  - refine (proj1 (decode_token_catches_invalid_tokens Fake.env "only.two")
              _).
    exists (Exc DecodeError "Not enough segments"). split; reflexivity.
  - exact (proj1 (proj2 (decode_token_catches_invalid_tokens Fake.env
                           "fresh.token.sig")) _ eq_refl).
  - exact (proj1 (proj2 (proj2 (decode_token_catches_invalid_tokens
                                  Scenario.strict_jwt
                                  Scenario.unencodable_token)))
             Scenario.encode_error eq_refl eq_refl).
Defined.

(** C9, as stated, fails: a token that the decoder cannot even encode makes
    it raise an exception that is no [InvalidTokenError]; [decode_token]
    does not catch it, prints nothing and lets it through. *)
Lemma decoder_fault_escapes_decode_token :
  decode_token Scenario.strict_jwt Scenario.unencodable_token
    = (Raise Scenario.encode_error, [])
  /\ ~ decode_token_never_raises.
Proof.
  split; [reflexivity|].
  intros Hclaim.
  specialize (Hclaim Scenario.strict_jwt Scenario.unencodable_token).
  assert (outcome (decode_token Scenario.strict_jwt
                     Scenario.unencodable_token)
          = Return PNone) as Hnone.
  { apply Hclaim. intros payload. discriminate. }
  discriminate Hnone.
Qed.

(** ** Unguarded uses of the decoded payload *)

Lemma token_list_vos_malformed env token :
  malformed env token ->
  token_list_vos env token
  = (Raise (Exc TypeError ""), [EvStderr "Error: Invalid access token."]).
Proof.
  intros Hm. unfold token_list_vos.
  by rewrite (decode_token_rejects _ _ Hm).
Qed.

Lemma check_token_without_exp env token verbose payload :
  jwt_decode env token = Return payload ->
  payload !! "exp" = None ->
  check_token env token verbose = (Raise (Exc KeyError ""), []).
Proof.
  intros Hd Hexp. unfold check_token.
  rewrite (decode_token_accepts _ _ _ Hd), bind_ret.
  unfold py_getitem. by rewrite Hexp.
Qed.

(** C10.  On a token the decoder rejects, [token_list_vos] subscripts the
    [None] that [decode_token] returned and raises [TypeError], after the
    error line and before any request; on a token whose payload has no
    [iss] claim it raises [KeyError]; and on a token whose payload has no
    [exp] claim, [check_token] raises [KeyError]. *)
Theorem undecoded_payload_faults env token :
  (malformed env token ->
     token_list_vos env token
     = (Raise (Exc TypeError ""), [EvStderr "Error: Invalid access token."]))
  /\ (forall payload,
        jwt_decode env token = Return payload ->
        payload !! "iss" = None ->
        token_list_vos env token = (Raise (Exc KeyError ""), []))
  /\ (forall payload verbose,
        jwt_decode env token = Return payload ->
        payload !! "exp" = None ->
        check_token env token verbose = (Raise (Exc KeyError ""), [])).
Proof.
  split; [|split].
  - apply token_list_vos_malformed.
  - intros payload Hd Hiss. unfold token_list_vos.
    rewrite (decode_token_accepts _ _ _ Hd), bind_ret.
    unfold py_getitem. by rewrite Hiss.
  - intros payload verbose. apply check_token_without_exp.
Qed.

Lemma undecoded_payload_faults_witness :
  token_list_vos Fake.env "not a token"
    = (Raise (Exc TypeError ""), [EvStderr "Error: Invalid access token."])
  /\ check_token Fake.env "noexp.token.sig" false
     = (Raise (Exc KeyError ""), []).
Proof.
  split.
  - refine (proj1 (undecoded_payload_faults Fake.env "not a token") _).
    exists (Exc DecodeError "Not enough segments"). split; reflexivity.
  - exact (proj2 (proj2 (undecoded_payload_faults Fake.env "noexp.token.sig"))
             (Fake.claims_of None) false eq_refl eq_refl).
Defined.

(** ** Strings *)

Lemma string_app_cons a (s t : string) :
  String a s +:+ t = String a (s +:+ t).
Proof. reflexivity. Qed.

Lemma string_app_nil_l (s : string) : "" +:+ s = s.
Proof. reflexivity. Qed.

Lemma string_app_nil_r (s : string) : s +:+ "" = s.
Proof.
  induction s as [|a s IH]; [done|]. rewrite string_app_cons. by f_equal.
Qed.

Lemma string_app_assoc (s1 s2 s3 : string) :
  (s1 +:+ s2) +:+ s3 = s1 +:+ (s2 +:+ s3).
Proof.
  induction s1 as [|a s1 IH]; [done|]. rewrite !string_app_cons. simpl.
  by f_equal.
Qed.

Lemma string_app_length (s1 s2 : string) :
  String.length (s1 +:+ s2) = (String.length s1 + String.length s2)%nat.
Proof.
  induction s1 as [|a s1 IH]; [done|]. rewrite !string_app_cons. simpl.
  by f_equal.
Qed.

Lemma consumed_app (w s : string) : consumed (w +:+ s) s = w.
Proof.
  unfold consumed. rewrite string_app_length.
  replace (String.length w + String.length s - String.length s)%nat
    with (String.length w) by lia.
  induction w as [|a w IH].
  - rewrite string_app_nil_l. by destruct s.
  - rewrite string_app_cons. simpl. by f_equal.
Qed.

(** ** The matcher finds matches only *)


Lemma star_rounds_matches step greedy r k :
  sound step r ->
  forall fuel s c m,
    star_rounds step greedy k fuel s c = Some m ->
    exists w s' c',
      s = w +:+ s' /\ matches (RStar greedy r) w c c' /\ k s' c' = Some m.
Proof.
  intros Hstep fuel. induction fuel as [|fuel IH]; intros s c m H; simpl in H.
  - exists "", s, c. repeat split; [constructor|done].
  - assert (k s c = Some m ->
            exists w s' c', s = w +:+ s' /\ matches (RStar greedy r) w c c'
                            /\ k s' c' = Some m) as Hstop.
    { intros Hk. exists "", s, c. repeat split; [constructor|done]. }
    assert (step s c (fun s' c' =>
               if (String.length s' <? String.length s)%nat
               then star_rounds step greedy k fuel s' c' else None) = Some m ->
            exists w s' c', s = w +:+ s' /\ matches (RStar greedy r) w c c'
                            /\ k s' c' = Some m) as Hmore.
    { intros Hs. apply Hstep in Hs as (w1 & s1 & c1 & -> & Hm1 & Hk).
      destruct (Nat.ltb_spec (String.length s1)
                  (String.length (w1 +:+ s1))) as [Hlt|]; [|done].
      apply IH in Hk as (w2 & s2 & c2 & -> & Hm2 & Hk).
      exists (w1 +:+ w2), s2, c2. rewrite string_app_assoc.
      repeat split; [|done].
      apply matches_star_round with c1; [done| |done].
      intros ->. rewrite string_app_nil_l in Hlt. lia. }
    destruct greedy.
    + destruct (step s c _) as [m'|] eqn:Hs.
      * injection H as Hm; subst m'. by apply Hmore.
      * by apply Hstop.
    + destruct (k s c) as [m'|] eqn:Hk.
      * injection H as Hm; subst m'. by apply Hstop.
      * by apply Hmore.
Qed.

Lemma rmatch_sound r : sound (rmatch r) r.
Proof.
  induction r as [|a| |r1 IH1 r2 IH2|n r IH|greedy r IH];
    intros s c k m H; simpl in H.
  - exists "", s, c. repeat split; [constructor|done].
  - destruct s as [|b s]; [done|].
    destruct (Ascii.eqb_spec a b) as [<-|]; [|done].
    exists (String a ""), s, c. repeat split; [constructor|done].
  - destruct s as [|b s]; [done|].
    destruct (Ascii.eqb_spec b newline) as [|Hb]; [done|].
    exists (String b ""), s, c. repeat split; [by constructor|done].
  - apply IH1 in H as (w1 & s1 & c1 & -> & Hm1 & H).
    apply IH2 in H as (w2 & s2 & c2 & -> & Hm2 & H).
    exists (w1 +:+ w2), s2, c2. rewrite string_app_assoc.
    repeat split; [|done]. by apply matches_seq with c1.
  - apply IH in H as (w & s' & c' & -> & Hm & H).
    rewrite consumed_app in H.
    exists w, s', (<[n := w]> c'). repeat split; [|done]. by constructor.
  - by apply star_rounds_matches with (rmatch r) (String.length s).
Qed.

(** ** What a match looks like *)

Lemma matches_empty_inv w c c' :
  matches REmpty w c c' -> w = "" /\ c' = c.
Proof. by inversion 1. Qed.

Lemma matches_char_inv a w c c' :
  matches (RChar a) w c c' -> w = String a "" /\ c' = c.
Proof. by inversion 1. Qed.

Lemma matches_any_inv w c c' :
  matches RAny w c c' -> exists b, w = String b "" /\ b <> newline /\ c' = c.
Proof. inversion 1; subst. by eexists. Qed.

Lemma matches_seq_inv r1 r2 w c c' :
  matches (RSeq r1 r2) w c c' ->
  exists w1 w2 c1,
    w = w1 +:+ w2 /\ matches r1 w1 c c1 /\ matches r2 w2 c1 c'.
Proof. inversion 1; subst. by eexists _, _, _. Qed.

Lemma matches_group_inv n r w c c' :
  matches (RGroup n r) w c c' ->
  exists c1, matches r w c c1 /\ c' = <[n := w]> c1.
Proof. inversion 1; subst. by eexists. Qed.


Lemma one_line_nil : one_line "".
Proof. constructor. Qed.

Lemma one_line_cons a s : a <> newline -> one_line s -> one_line (String a s).
Proof. intros. by constructor. Qed.

Lemma one_line_app s1 s2 : one_line s1 -> one_line s2 -> one_line (s1 +:+ s2).
Proof.
  intros H1 H2. induction s1 as [|a s1 IH]; [done|].
  rewrite string_app_cons. inversion H1; subst.
  apply one_line_cons; [done|by apply IH].
Qed.

Lemma matches_one_line r w c c' :
  matches r w c c' -> no_newline r -> one_line w.
Proof.
  induction 1; simpl; intros Hr.
  - apply one_line_nil.
  - by apply one_line_cons; [|apply one_line_nil].
  - by apply one_line_cons; [|apply one_line_nil].
  - destruct Hr. apply one_line_app; auto.
  - auto.
  - apply one_line_nil.
  - apply one_line_app; auto.
Qed.

(** A match leaves the groups it does not contain as they were. *)
Lemma matches_other_groups r w c c' n :
  matches r w c c' -> n ∉ groups_of r -> c' !! n = c !! n.
Proof.
  induction 1; simpl; intros Hn; try done.
  - rewrite not_elem_of_app in Hn. destruct Hn.
    rewrite IHmatches2, IHmatches1; auto.
  - rewrite not_elem_of_cons in Hn. destruct Hn.
    rewrite lookup_insert_ne; auto.
  - rewrite IHmatches2, IHmatches1; auto.
Qed.

Lemma compiled_VO_PATTERN_correct :
  re_compile VO_PATTERN = Some compiled_VO_PATTERN.
Proof. vm_compute. reflexivity. Qed.

Ltac spine :=
  repeat match goal with
  | H : matches (RSeq _ _) _ _ _ |- _ =>
      destruct (matches_seq_inv _ _ _ _ _ H) as (? & ? & ? & -> & ? & ?);
      clear H
  | H : matches (RChar _) _ _ _ |- _ =>
      destruct (matches_char_inv _ _ _ _ H) as [-> ->]; clear H
  | H : matches RAny _ _ _ |- _ =>
      destruct (matches_any_inv _ _ _ H) as (? & -> & ? & ->); clear H
  | H : matches REmpty _ _ _ |- _ =>
      destruct (matches_empty_inv _ _ _ H) as [-> ->]; clear H
  end.

Ltac flatten :=
  repeat (rewrite string_app_cons || rewrite string_app_nil_l
          || rewrite string_app_assoc).

Lemma match_shape w c m rest :
  matches compiled_VO_PATTERN w c m ->
  exists g, group1 m = Some g /\ vo_shape (w +:+ rest) g.
Proof.
  unfold compiled_VO_PATTERN. intros H. spine.
  match goal with
  | H : matches (RGroup 1 _) ?g _ _ |- _ =>
      apply matches_group_inv in H as (c1 & Hbody & ->); exists g
  end.
  match goal with
  | H : matches (RStar true _) _ _ _ |- _ => rename H into Hroles
  end.
  split.
  - unfold group1.
    rewrite (matches_other_groups _ _ _ _ 1%nat Hroles)
      by (apply not_elem_of_cons; split; [lia|apply not_elem_of_nil]).
    apply lookup_insert_eq.
  - match goal with
    | Hr : matches (RStar _ _) ?roles _ _ |- _ =>
        eexists _, _, _, roles, rest
    end.
    split; [flatten; reflexivity|]. split_and!; try done.
    + spine. by rewrite string_app_cons.
    + apply (matches_one_line _ _ _ _ Hbody). simpl. tauto.
    + apply (matches_one_line _ _ _ _ Hroles). simpl.
      split_and!; [done..|discriminate|done].
Qed.

Lemma vo_of_shape claim g : vo_of claim = Some g -> vo_shape claim g.
Proof.
  unfold vo_of, re_match. intros H.
  destruct (rmatch _ _ _ _) as [m|] eqn:Hm; [|done]. simpl in H.
  apply rmatch_sound in Hm as (w & rest & c' & -> & Hw & [= ->]).
  destruct (match_shape _ _ _ rest Hw) as (g' & Hg & Hshape).
  congruence.
Qed.

(** The first group takes part in every match of [VO_PATTERN]. *)
Lemma group1_of_match claim m :
  re_match compiled_VO_PATTERN claim = Some m -> is_Some (group1 m).
Proof.
  unfold re_match. intros Hm.
  apply rmatch_sound in Hm as (w & rest & c' & -> & Hw & [= ->]).
  destruct (match_shape _ _ _ rest Hw) as (g' & Hg & _). by exists g'.
Qed.

(** ** Entitlements without the member role *)

Lemma prefix_app (n b : string) : String.prefix n (n +:+ b) = true.
Proof.
  induction n as [|a n IH]; [by destruct b|]. rewrite string_app_cons.
  simpl. by destruct (ascii_dec a a).
Qed.

Lemma is_substring_prefix (n h : string) :
  String.prefix n h = true -> is_substring n h = true.
Proof. intros H. destruct h; simpl in *; by rewrite H. Qed.

Lemma is_substring_app (n a b : string) :
  is_substring n (a +:+ n +:+ b) = true.
Proof.
  induction a as [|x a IH].
  - rewrite string_app_nil_l. apply is_substring_prefix, prefix_app.
  - rewrite string_app_cons. simpl. rewrite IH. apply orb_true_r.
Qed.

Lemma vo_shape_member claim g :
  vo_shape claim g -> is_substring "role=member#aai" claim = true.
Proof.
  intros (d1 & d2 & d3 & roles & rest & -> & _).
  rewrite <- !(string_app_assoc _ _ ("role=member#aai" +:+ _)).
  apply is_substring_app.
Qed.

Lemma vo_of_not_member claim :
  is_substring "role=member#aai" claim = false -> vo_of claim = None.
Proof.
  intros H. destruct (vo_of claim) as [g|] eqn:Hg; [|done].
  apply vo_of_shape, vo_shape_member in Hg. congruence.
Qed.

(** ** The matcher finds a match whenever there is one *)

Lemma star_rounds_stop step greedy k fuel s c :
  is_Some (k s c) -> is_Some (star_rounds step greedy k fuel s c).
Proof.
  intros Hk. destruct fuel as [|fuel]; simpl; [done|].
  destruct greedy.
  - by destruct (step s c _).
  - by destruct Hk as [m ->].
Qed.

Lemma star_rounds_complete step greedy r k :
  (forall w c c', matches r w c c' ->
     forall s' k', is_Some (k' s' c') -> is_Some (step (w +:+ s') c k')) ->
  forall w c c',
    matches (RStar greedy r) w c c' ->
    forall s' fuel,
      (String.length (w +:+ s') <= fuel)%nat ->
      is_Some (k s' c') ->
      is_Some (star_rounds step greedy k fuel (w +:+ s') c).
Proof.
  intros Hstep w c c' Hm. remember (RStar greedy r) as rs eqn:Hrs.
  induction Hm as [| | | | |g r0 c|g r0 w1 w2 c c1 c2 Hm1 _ Hw1 Hm2 IH];
    try discriminate; injection Hrs as -> ->; intros s' fuel Hfuel Hk.
  - rewrite string_app_nil_l. by apply star_rounds_stop.
  - rewrite string_app_assoc in *.
    destruct fuel as [|fuel].
    { destruct w1; [done|]. rewrite string_app_cons in Hfuel.
      simpl in Hfuel. lia. }
    assert (is_Some (step (w1 +:+ w2 +:+ s') c (fun s1 c1 =>
              if (String.length s1 <? String.length (w1 +:+ w2 +:+ s'))%nat
              then star_rounds step greedy k fuel s1 c1 else None)))
      as [m Hmore].
    { apply Hstep with c1; [done|].
      assert (String.length (w2 +:+ s')
              < String.length (w1 +:+ w2 +:+ s'))%nat as Hlt.
      { rewrite (string_app_length w1). destruct w1; [done|]. simpl. lia. }
      destruct (Nat.ltb_spec (String.length (w2 +:+ s'))
                  (String.length (w1 +:+ w2 +:+ s'))); [|lia].
      apply IH; [done|lia|done]. }
    simpl. rewrite Hmore. destruct greedy; [done|].
    by destruct (k _ c).
Qed.

Lemma rmatch_complete r w c c' :
  matches r w c c' ->
  forall s' k, is_Some (k s' c') -> is_Some (rmatch r (w +:+ s') c k).
Proof.
  revert w c c'.
  induction r as [|a| |r1 IH1 r2 IH2|n r IH|greedy r IH];
    intros w c c' Hm s' k Hk.
  - apply matches_empty_inv in Hm as [-> ->]. by rewrite string_app_nil_l.
  - apply matches_char_inv in Hm as [-> ->]. rewrite string_app_cons.
    simpl. by rewrite Ascii.eqb_refl, string_app_nil_l.
  - apply matches_any_inv in Hm as (b & -> & Hb & ->).
    rewrite string_app_cons. simpl.
    destruct (Ascii.eqb_spec b newline); [done|].
    by rewrite string_app_nil_l.
  - apply matches_seq_inv in Hm as (w1 & w2 & c1 & -> & Hm1 & Hm2).
    rewrite string_app_assoc. simpl.
    apply IH1 with c1; [done|]. by apply IH2 with c'.
  - apply matches_group_inv in Hm as (c1 & Hm & ->). simpl.
    apply IH with c1; [done|]. by rewrite consumed_app.
  - simpl. by apply star_rounds_complete with r c'.
Qed.

(** ** Canonical entitlements *)


Lemma rmatch_seq_char a r s c k :
  rmatch (RSeq (RChar a) r) (String a s) c k = rmatch r s c k.
Proof. simpl. by rewrite Ascii.eqb_refl. Qed.

Lemma rmatch_seq_any b r s c k :
  b <> newline ->
  rmatch (RSeq RAny r) (String b s) c k = rmatch r s c k.
Proof. intros Hb. simpl. by destruct (Ascii.eqb_spec b newline). Qed.

Lemma matches_cons_char a r w c c' :
  matches r w c c' -> matches (RSeq (RChar a) r) (String a w) c c'.
Proof.
  intros H. change (String a w) with (String a "" +:+ w).
  apply matches_seq with c; [constructor|done].
Qed.

Lemma matches_cons_any b r w c c' :
  b <> newline ->
  matches r w c c' -> matches (RSeq RAny r) (String b w) c c'.
Proof.
  intros Hb H. change (String b w) with (String b "" +:+ w).
  apply matches_seq with c; [by constructor|done].
Qed.

Lemma matches_any_star greedy w c :
  one_line w -> matches (RStar greedy RAny) w c c.
Proof.
  induction w as [|a w IH]; intros Hw; [constructor|].
  inversion Hw; subst.
  change (String a w) with (String a "" +:+ w).
  apply matches_star_round with c; [by constructor|done|by apply IH].
Qed.

(** A lazy [.*?] in front of a continuation that only accepts a colon next
    reads up to the first colon. *)
Lemma lazy_scan k fuel g tail c m :
  one_line g -> no_colon g ->
  (forall x s, x <> colon -> k (String x s) c = None) ->
  k (String colon tail) c = Some m ->
  (String.length g <= fuel)%nat ->
  star_rounds (rmatch RAny) false k fuel (g +:+ String colon tail) c = Some m.
Proof.
  intros Hline Hcolon Hother Hk. revert fuel.
  induction g as [|x g IH]; intros fuel Hfuel.
  - rewrite string_app_nil_l. destruct fuel; simpl; by rewrite ?Hk.
  - inversion Hline; subst. inversion Hcolon; subst.
    destruct fuel as [|fuel]; [simpl in Hfuel; lia|].
    rewrite string_app_cons. simpl. rewrite Hother by done.
    destruct (Ascii.eqb_spec x newline); [done|].
    destruct (Nat.ltb_spec (String.length (g +:+ String colon tail))
                (S (String.length (g +:+ String colon tail)))); [|lia].
    apply IH; [done|done|]. simpl in Hfuel. lia.
Qed.

Lemma lazy_group n tailr g tail c k m :
  g <> "" -> one_line g -> no_colon g ->
  rmatch tailr tail (<[n := g]> c) k = Some m ->
  rmatch (RSeq (RGroup n (RSeq (RSeq RAny (RStar false RAny)) REmpty))
               (RSeq (RChar colon) tailr))
    (g +:+ String colon tail) c k = Some m.
Proof.
  intros Hne Hline Hcolon Htail.
  destruct g as [|a g]; [done|]. inversion Hline; subst.
  inversion Hcolon; subst.
  rewrite string_app_cons.
  cbn [rmatch]. destruct (Ascii.eqb_spec a newline); [done|].
  apply lazy_scan; try done.
  - intros x s Hx. destruct (Ascii.eqb_spec colon x); [congruence|done].
  - rewrite Ascii.eqb_refl.
    change (String a (g +:+ String colon tail))
      with (String a g +:+ String colon tail).
    by rewrite consumed_app.
  - rewrite string_app_length. lia.
Qed.


Lemma role_segments_match roles c :
  role_segments roles ->
  exists c',
    matches (RStar true (RGroup 2
       (RSeq (RSeq RAny (RStar true RAny)) (RSeq (RChar ":") REmpty))))
      roles c c'.
Proof.
  intros [->|(a & seg & -> & Ha & Hseg)]; [eexists; constructor|].
  eexists.
  rewrite <- (string_app_nil_r (String a (seg +:+ ":"))).
  eapply matches_star_round; [|done|constructor].
  constructor.
  change (String a (seg +:+ ":"))
    with ((String a "" +:+ seg) +:+ (":" +:+ "")).
  eapply matches_seq.
  - eapply matches_seq; [by constructor|by apply matches_any_star].
  - eapply matches_seq; constructor.
Qed.

(** A member entitlement written as the grammar has it, for a group name
    without a colon, stands for that group. *)
Lemma vo_of_canonical group roles rest :
  group <> "" -> one_line group -> no_colon group ->
  role_segments roles ->
  vo_of ("urn:mace:egi.eu:group:" +:+ group +:+ ":" +:+ roles
           +:+ "role=member#aai.egi.eu" +:+ rest) = Some group.
Proof.
  intros Hne Hline Hcolon Hroles.
  destruct (role_segments_match roles (<[1%nat := group]> ∅) Hroles)
    as [c' Hm].
  unfold vo_of, re_match, compiled_VO_PATTERN. flatten.
  repeat (rewrite rmatch_seq_char || rewrite rmatch_seq_any by discriminate).
  match goal with
  | |- rmatch (RSeq _ (RSeq _ ?tailr)) (_ +:+ String _ ?tail) _ ?k ≫= _ = _ =>
      assert (exists m, rmatch tailr tail (<[1%nat := group]> ∅) k = Some m
                        /\ group1 m = Some group) as (m & Htail & Hg)
  end.
  { match goal with
    | |- exists m, rmatch ?tailr _ _ ?k = _ /\ _ =>
        assert (is_Some (rmatch tailr
                  ((roles +:+ "role=member#aai.egi.eu") +:+ rest)
                  (<[1%nat := group]> ∅) k)) as [m Hsome]
    end.
    { eapply rmatch_complete; [|by eexists].
      eapply matches_seq; [exact Hm|].
      repeat (apply matches_cons_char
              || (apply matches_cons_any; [discriminate|])).
      constructor. }
    exists m. revert Hsome. flatten. intros Hsome. split; [done|].
    apply rmatch_sound in Hsome as (w & s' & c1 & _ & Hw & [= ->]).
    unfold group1.
    rewrite (matches_other_groups _ _ _ _ 1%nat Hw); [apply lookup_insert_eq|].
    simpl. rewrite not_elem_of_cons. split; [lia|apply not_elem_of_nil]. }
  rewrite (lazy_group _ _ _ _ _ _ _ Hne Hline Hcolon Htail). done.
Qed.

(** ** Sorting *)

Lemma ascii_compare_refl a : Ascii.compare a a = Eq.
Proof. unfold Ascii.compare. apply N.compare_refl. Qed.

Lemma compare_lt_trans s1 s2 s3 :
  String.compare s1 s2 = Lt -> String.compare s2 s3 = Lt ->
  String.compare s1 s3 = Lt.
Proof.
  revert s2 s3. induction s1 as [|a s1 IH]; intros [|b s2] [|c s3];
    simpl; try done.
  unfold Ascii.compare.
  destruct (N.compare_spec (N_of_ascii a) (N_of_ascii b)) as [E1|L1|G1];
    destruct (N.compare_spec (N_of_ascii b) (N_of_ascii c)) as [E2|L2|G2];
    destruct (N.compare_spec (N_of_ascii a) (N_of_ascii c)) as [E3|L3|G3];
    try done; try lia.
  apply IH.
Qed.

Lemma str_lt_irrefl s : ~ str_lt s s.
Proof.
  unfold str_lt, String.ltb. induction s as [|a s IH]; simpl; [done|].
  by rewrite ascii_compare_refl.
Qed.

Lemma str_le_lt_eq s1 s2 : str_le s1 s2 <-> str_lt s1 s2 \/ s1 = s2.
Proof.
  split.
  - unfold str_le, str_lt, String.leb, String.ltb.
    destruct (String.compare s1 s2) eqn:E; [|by left|done].
    right. by apply String.compare_eq_iff.
  - intros [H| ->].
    + unfold str_le, str_lt, String.leb, String.ltb in *.
      by destruct (String.compare s1 s2).
    + destruct (String.leb_total s2 s2); done.
Qed.

Global Instance str_lt_trans : Transitive str_lt.
Proof.
  intros s1 s2 s3. unfold str_lt, String.ltb. intros H1 H2.
  destruct (String.compare s1 s2) eqn:E1; try done.
  destruct (String.compare s2 s3) eqn:E2; try done.
  by rewrite (compare_lt_trans _ _ _ E1 E2).
Qed.

Global Instance str_le_trans : Transitive str_le.
Proof.
  intros s1 s2 s3. rewrite !str_le_lt_eq.
  intros [H1| ->] [H2| ->]; auto. left. by transitivity s2.
Qed.

Global Instance str_le_total : Total str_le.
Proof. intros s1 s2. apply String.leb_total. Qed.

Lemma strictly_sorted (l : list string) :
  StronglySorted str_le l -> NoDup l -> StronglySorted str_lt l.
Proof.
  induction 1 as [|x l Hl IH Hx]; intros Hnd; [constructor|].
  apply NoDup_cons in Hnd as [Hnotin Hnd].
  constructor; [by apply IH|].
  rewrite Forall_forall in Hx |- *. intros y Hy.
  destruct (proj1 (str_le_lt_eq x y) (Hx y Hy)) as [Hlt | ->]; done.
Qed.

Lemma sorted_NoDup (vos : gset string) : NoDup (sorted vos).
Proof.
  unfold sorted. rewrite merge_sort_Permutation. apply NoDup_elements.
Qed.

Lemma sorted_spec (vos : gset string) :
  StronglySorted str_lt (sorted vos)
  /\ forall g, g ∈ sorted vos <-> g ∈ vos.
Proof.
  split.
  - apply strictly_sorted; [|apply sorted_NoDup].
    apply StronglySorted_merge_sort; apply _.
  - intros g. unfold sorted.
    by rewrite merge_sort_Permutation, elem_of_elements.
Qed.

(** ** [token_list_vos] *)

Lemma collect_vos_strings (ents : list string) (vos : gset string) :
  collect_vos compiled_VO_PATTERN (PStr <$> ents) vos
  = ret (vos ∪ list_to_set (omap vo_of ents)).
Proof.
  revert vos. induction ents as [|claim ents IH]; intros vos; simpl.
  - by rewrite (right_id_L ∅ (∪)).
  - unfold vo_of at 1.
    destruct (re_match compiled_VO_PATTERN claim) as [m|] eqn:Hm; simpl.
    + destruct (group1_of_match _ _ Hm) as [g Hg]. rewrite Hg. simpl.
      rewrite IH. by rewrite (assoc_L (∪)).
    + apply IH.
Qed.

Lemma outcome_bind {A B} (m : M A) (a : A) (k : A -> M B) :
  outcome m = Return a -> outcome (bind m k) = outcome (k a).
Proof.
  destruct m as [r t]. simpl. intros ->. simpl. by destruct (k a).
Qed.

Lemma oidc_discover_ok env issuer discovery endpoints :
  requests_get env
    (PStr (issuer +:+ "/.well-known/openid-configuration")) []
    = Return discovery ->
  ~ 400 <= status_code discovery < 600 ->
  json discovery = Return endpoints ->
  oidc_discover env (PStr issuer)
  = (Return endpoints,
     [EvHttpGet (PStr (issuer +:+ "/.well-known/openid-configuration")) []]).
Proof.
  intros Hget Hok Hjson. unfold oidc_discover, py_add_str.
  rewrite bind_ret, bind_emit, Hget, bind_lift_return.
  by rewrite (raise_for_status_pass _ Hok), bind_ret, Hjson.
Qed.

Lemma token_list_vos_reported env token ents :
  reports_entitlements env token ents ->
  outcome (token_list_vos env token)
  = Return (sorted (list_to_set (omap vo_of ents))).
Proof.
  intros (payload & issuer & discovery & endpoints & endpoint & userinfo
          & body & Hd & Hiss & Hget1 & Hok1 & Hj1 & Hep & Hget2 & Hok2
          & Hj2 & Hents).
  unfold token_list_vos.
  rewrite (outcome_bind _ (PDict payload))
    by by rewrite (decode_token_accepts _ _ _ Hd).
  rewrite (outcome_bind _ (PStr issuer)) by (simpl; by rewrite Hiss).
  rewrite (outcome_bind _ (PDict endpoints))
    by by rewrite (oidc_discover_ok _ _ _ _ Hget1 Hok1 Hj1).
  rewrite (outcome_bind _ endpoint) by (simpl; by rewrite Hep).
  cbv zeta. rewrite (outcome_bind _ tt) by done.
  rewrite Hget2, bind_lift_return, (raise_for_status_pass _ Hok2), bind_ret.
  rewrite Hj2, bind_lift_return.
  unfold py_get. rewrite Hents, bind_ret. simpl py_iter.
  by rewrite bind_ret, collect_vos_strings, bind_ret, (left_id_L ∅ (∪)).
Qed.


(** C6.  When the identity provider lists the entitlement strings [ents]
    for the token, [token_list_vos] returns, without error, the list, in
    strictly increasing lexicographic order and without duplicates, of the
    first groups of the entitlements that [VO_PATTERN] matches.  Every entitlement that
    contributes has the shape of the pattern, [role=member] included; one
    that does not mention that role contributes nothing; and a member
    entitlement written as the grammar has it contributes its group.  For
    the three entitlements of the example the result is
    [["vo.example.eu"]]. *)
Theorem vo_extraction env token ents :
  reports_entitlements env token ents ->
  exists vos,
    outcome (token_list_vos env token) = Return vos
    /\ StronglySorted str_lt vos
    /\ NoDup vos
    /\ (forall g,
          g ∈ vos <-> exists claim, claim ∈ ents /\ vo_of claim = Some g)
    /\ (forall claim g, vo_of claim = Some g -> vo_shape claim g)
    /\ (forall claim,
          is_substring "role=member#aai" claim = false -> vo_of claim = None)
    /\ (forall group roles rest,
          group <> "" -> one_line group -> no_colon group ->
          role_segments roles ->
          vo_of ("urn:mace:egi.eu:group:" +:+ group +:+ ":" +:+ roles
                   +:+ "role=member#aai.egi.eu" +:+ rest) = Some group)
    /\ (ents = example_entitlements -> vos = ["vo.example.eu"]).
Proof.
  intros Hrep. exists (sorted (list_to_set (omap vo_of ents))).
  split; [by apply token_list_vos_reported|].
  destruct (sorted_spec (list_to_set (omap vo_of ents))) as [Hsorted Hin].
  split; [done|]. split; [apply sorted_NoDup|].
  split; [|split; [|split; [|split]]].
  - intros g. rewrite Hin, elem_of_list_to_set, list_elem_of_omap. done.
  - apply vo_of_shape.
  - apply vo_of_not_member.
  - apply vo_of_canonical.
  - intros ->. vm_compute. reflexivity.
Qed.

Lemma vo_extraction_witness :
  outcome (token_list_vos Fake.env "fresh.token.sig")
  = Return ["vo.example.eu"].
Proof.
  assert (reports_entitlements Fake.env "fresh.token.sig"
            example_entitlements) as Hrep.
  { exists (Fake.claims_of (Some (PInt 1030))), Fake.issuer,
      {| status_code := 200;
         json := Return (PDict (<["userinfo_endpoint" :=
                                   PStr Fake.userinfo_url]> ∅)) |},
      (<["userinfo_endpoint" := PStr Fake.userinfo_url]> ∅),
      (PStr Fake.userinfo_url),
      {| status_code := 200;
         json := Return (PDict (<["eduperson_entitlement" :=
                     PList (PStr <$> example_entitlements)]> ∅)) |},
      (<["eduperson_entitlement" :=
           PList (PStr <$> example_entitlements)]> ∅).
    split_and!; try reflexivity; simpl; lia. }
  destruct (vo_extraction Fake.env "fresh.token.sig"
              example_entitlements Hrep)
    as (vos & Hout & _ & _ & _ & _ & _ & _ & Hexample).
  rewrite Hout. f_equal. by apply Hexample.
Defined.

(** Two member entitlements of one VO and one of another: the duplicate is
    collapsed and the names come out in order. *)
Example vo_extraction_duplicates :
  sorted (list_to_set (omap vo_of
    [ "urn:mace:egi.eu:group:vo.other.eu:role=member#aai.egi.eu";
      "urn:mace:egi.eu:group:vo.example.eu:role=member#aai.egi.eu";
      "urn:mace:egi.eu:group:vo.example.eu:admins:role=member#aai.egi.eu" ]))
  = ["vo.example.eu"; "vo.other.eu"].
Proof. vm_compute. reflexivity. Qed.

(** * Further properties *)

(** ** Traces *)

Lemma actions_bind {A B} (m : M A) (k : A -> M B) :
  actions (bind m k)
  = actions m ++ match outcome m with
                 | Return a => actions (k a)
                 | Raise _ => []
                 end.
Proof.
  destruct m as [[a|e] t]; simpl.
  - by destruct (k a).
  - by rewrite app_nil_r.
Qed.

Lemma actions_emit {B} (ev : event) (k : unit -> M B) :
  actions (bind (emit ev) k) = ev :: actions (k tt).
Proof. by rewrite bind_emit. Qed.

Lemma outcome_emit {B} (ev : event) (k : unit -> M B) :
  outcome (bind (emit ev) k) = outcome (k tt).
Proof. by rewrite bind_emit. Qed.

Lemma outcome_bind_raise {A B} (m : M A) (e : exception) (k : A -> M B) :
  outcome m = Raise e -> outcome (bind m k) = Raise e.
Proof. destruct m as [r t]. simpl. by intros ->. Qed.

Lemma bind_return {A B} (a : A) (t : trace) (k : A -> M B) :
  bind (Return a, t) k = (outcome (k a), t ++ actions (k a)).
Proof. simpl. by destruct (k a). Qed.

Lemma py_getitem_silent v key : actions (py_getitem v key) = [].
Proof. destruct v; simpl; try done. by destruct (d !! key). Qed.

Lemma py_get_silent v key default : actions (py_get v key default) = [].
Proof. by destruct v. Qed.

Lemma py_iter_silent v : actions (py_iter v) = [].
Proof. by destruct v. Qed.

Lemma raise_for_status_silent r : actions (raise_for_status r) = [].
Proof. unfold raise_for_status. by destruct (_ && _). Qed.

Lemma collect_vos_silent pattern claims vos :
  actions (collect_vos pattern claims vos) = [].
Proof.
  revert vos. induction claims as [|claim claims IH]; intros vos; [done|].
  destruct claim; simpl; try done.
  destruct (re_match pattern s) as [m|]; [|apply IH].
  destruct (group1 m); [apply IH|done].
Qed.

(** ** The agent adapter *)

Lemma agent_unfold env account :
  truthy (Some account) = true ->
  get_token_from_oidc_agent env (Some account)
  = (emit (EvAgent account _MIN_ACCESS_TOKEN_TIME "fedcloudclient") ;;;
     match agent_get_access_token env account _MIN_ACCESS_TOKEN_TIME
             "fedcloudclient" with
     | Return access_token => ret (PStr access_token)
     | Raise exception =>
         if isinstance exception OidcAgentError
         then
           print_error
             ("Error during getting access token from oidc-agent" +:+
              String "010" "Error message: " +:+ exc_str exception)
             false ;;;
           ret PNone
         else raise exception
     end).
Proof. intros H. unfold get_token_from_oidc_agent. by rewrite H. Qed.

(** X1.  When the agent hands out a token for a non-empty account,
    [get_token_from_oidc_agent] returns that token as it is, after one call
    that asks for [_MIN_ACCESS_TOKEN_TIME] seconds of validity under the
    name [fedcloudclient]; the decoder and the clock play no part, so the
    token is not checked. *)
Theorem agent_token_is_returned env account access_token :
  truthy (Some account) = true ->
  agent_get_access_token env account 30 "fedcloudclient"
    = Return access_token ->
  get_token_from_oidc_agent env (Some account)
    = (Return (PStr access_token), [EvAgent account 30 "fedcloudclient"])
  /\ forall decoder now to_int,
       get_token_from_oidc_agent (with_decoder env decoder now to_int)
         (Some account)
       = get_token_from_oidc_agent env (Some account).
Proof.
  intros Ht Hagent. split.
  - rewrite (agent_unfold _ _ Ht), bind_emit.
    unfold _MIN_ACCESS_TOKEN_TIME. by rewrite Hagent.
  - intros decoder now to_int. by rewrite !(agent_unfold _ _ Ht).
Qed.

Lemma agent_token_is_returned_witness :
  get_token_from_oidc_agent Fake.env (Some "egi")
  = (Return (PStr "agent.token.sig"), [EvAgent "egi" 30 "fedcloudclient"])
  /\ check_token Fake.env "agent.token.sig" false
     = (Return PNone, [EvStderr "Error: Invalid access token."]).
Proof.
  split; [|reflexivity].
  exact (proj1 (agent_token_is_returned Fake.env "egi" "agent.token.sig"
                  eq_refl eq_refl)).
Defined.

Lemma agent_error_caught env account e :
  truthy (Some account) = true ->
  agent_get_access_token env account 30 "fedcloudclient" = Raise e ->
  isinstance e OidcAgentError = true ->
  get_token_from_oidc_agent env (Some account)
  = (Return PNone,
     [EvAgent account 30 "fedcloudclient";
      EvStderr ("Error during getting access token from oidc-agent"
                +:+ String newline "Error message: " +:+ exc_str e)]).
Proof.
  intros Ht Hagent He.
  rewrite (agent_unfold _ _ Ht), bind_emit.
  unfold _MIN_ACCESS_TOKEN_TIME. by rewrite Hagent, He.
Qed.

(** X2.  When the agent call fails with an [OidcAgentError] (or a subclass
    of it), [get_token_from_oidc_agent] does not raise: it prints two lines
    to standard error, the second carrying the text of the agent's error,
    and returns [None].  Any other exception of the agent call leaves the
    function as it is, with nothing printed. *)
Theorem agent_error_is_reported env account e :
  truthy (Some account) = true ->
  agent_get_access_token env account 30 "fedcloudclient" = Raise e ->
  (isinstance e OidcAgentError = true ->
     get_token_from_oidc_agent env (Some account)
     = (Return PNone,
        [EvAgent account 30 "fedcloudclient";
         EvStderr ("Error during getting access token from oidc-agent"
                   +:+ String newline "Error message: " +:+ exc_str e)]))
  /\ (isinstance e OidcAgentError = false ->
      get_token_from_oidc_agent env (Some account)
      = (Raise e, [EvAgent account 30 "fedcloudclient"])).
Proof.
  intros Ht Hagent. split.
  - by apply agent_error_caught.
  - intros He. rewrite (agent_unfold _ _ Ht), bind_emit.
    unfold _MIN_ACCESS_TOKEN_TIME. by rewrite Hagent, He.
Qed.

Lemma agent_error_is_reported_witness :
  get_token_from_oidc_agent Fake.env (Some "unknown")
    = (Return PNone,
       [EvAgent "unknown" 30 "fedcloudclient";
        EvStderr ("Error during getting access token from oidc-agent"
                  +:+ String newline "Error message: Account not loaded")])
  /\ get_token_from_oidc_agent
       (Scenario.with_agent (fun _ _ _ => Raise (Exc OSError "Broken pipe")))
       (Some "egi")
     = (Raise (Exc OSError "Broken pipe"), [EvAgent "egi" 30 "fedcloudclient"]).
Proof.
  split.
  - exact (proj1 (agent_error_is_reported Fake.env "unknown"
                    (Exc OidcAgentError "Account not loaded")
                    eq_refl eq_refl) eq_refl).
  - exact (proj2 (agent_error_is_reported
                    (Scenario.with_agent
                       (fun _ _ _ => Raise (Exc OSError "Broken pipe")))
                    "egi" (Exc OSError "Broken pipe") eq_refl eq_refl)
             eq_refl).
Defined.

Lemma agent_adapter_is_offline env account :
  Forall (fun ev => calls_http ev = false)
    (actions (get_token_from_oidc_agent env account)).
Proof.
  unfold get_token_from_oidc_agent.
  destruct (truthy account); [|constructor].
  rewrite actions_emit. constructor; [done|].
  destruct (agent_get_access_token _ _ _ _) as [t|e]; [constructor|].
  destruct (isinstance e OidcAgentError); repeat constructor.
Qed.

(** X3.  The agent is the last resort of [get_access_token]: with no
    explicit token and no mytoken but an agent account, the result is that
    of [get_token_from_oidc_agent] and no HTTP request is sent; and when the
    agent fails with an [OidcAgentError] the result is [None], not the fatal
    exit of the case where nothing is configured. *)
Theorem agent_is_last_resort env token account mytoken server :
  truthy token = false ->
  truthy mytoken = false ->
  truthy account = true ->
  get_access_token env token account mytoken server
    = get_token_from_oidc_agent env account
  /\ Forall (fun ev => calls_http ev = false)
       (actions (get_access_token env token account mytoken server))
  /\ (forall e,
        agent_get_access_token env (default "" account) 30 "fedcloudclient"
          = Raise e ->
        isinstance e OidcAgentError = true ->
        outcome (get_access_token env token account mytoken server)
        = Return PNone).
Proof.
  intros Ht Hm Ha.
  assert (get_access_token env token account mytoken server
          = get_token_from_oidc_agent env account) as Heq.
  { unfold get_access_token. by rewrite Ht, Hm, Ha. }
  rewrite Heq. split; [done|]. split; [apply agent_adapter_is_offline|].
  intros e Hagent He. destruct account as [a|]; [|done]. simpl in Hagent.
  by rewrite (agent_error_caught _ _ _ Ha Hagent He).
Qed.

Lemma agent_is_last_resort_witness :
  get_access_token Fake.env None (Some "egi") (Some "") PNone
    = (Return (PStr "agent.token.sig"), [EvAgent "egi" 30 "fedcloudclient"])
  /\ outcome (get_access_token Fake.env (Some "") (Some "unknown") None PNone)
     = Return PNone.
Proof.
  split.
  - rewrite (proj1 (agent_is_last_resort Fake.env None (Some "egi") (Some "")
                      PNone eq_refl eq_refl eq_refl)).
    reflexivity.
  - exact (proj2 (proj2 (agent_is_last_resort Fake.env (Some "")
                           (Some "unknown") None PNone
                           eq_refl eq_refl eq_refl))
             (Exc OidcAgentError "Account not loaded") eq_refl eq_refl).
Defined.

(** ** The exchange with the mytoken server *)

Lemma exchange_actions env mytoken server :
  actions (get_token_from_mytoken_server env mytoken server) = []
  \/ exists url,
       server = PStr url /\
       actions (get_token_from_mytoken_server env mytoken server)
       = [EvHttpPost (url +:+ "/api/v0/token/access") (exchange_data mytoken)].
Proof.
  unfold get_token_from_mytoken_server.
  destruct server as [| | | |url| |]; try by left.
  right. exists url. split; [done|].
  unfold py_add_str. rewrite bind_ret. cbv zeta. rewrite actions_emit.
  f_equal.
  destruct (requests_post env _ _) as [resp|e]; [|done].
  rewrite bind_lift_return, actions_bind, raise_for_status_silent.
  destruct (outcome (raise_for_status resp)) as [[]|e]; [|done].
  destruct (json resp) as [body|e]; [|done].
  rewrite bind_lift_return. apply py_get_silent.
Qed.

(** X4.  With no explicit token and a mytoken supplied, [get_access_token]
    does nothing but the exchange: it posts one request to
    [<server>/api/v0/token/access] with the body
    [{"grant_type": "mytoken", "mytoken": <mytoken>}] (and none at all when
    the server is not a [str]); it never calls the agent and prints
    nothing, whether the exchange succeeds or fails. *)
Theorem mytoken_branch_posts_once env token account mytoken server :
  truthy token = false ->
  truthy mytoken = true ->
  actions (get_access_token env token account mytoken server) = []
  \/ exists url,
       server = PStr url /\
       actions (get_access_token env token account mytoken server)
       = [EvHttpPost (url +:+ "/api/v0/token/access")
            (PDict (<["grant_type" := PStr "mytoken"]>
                    (<["mytoken" := param_val mytoken]> ∅)))].
Proof.
  intros Ht Hm. unfold get_access_token. rewrite Ht, Hm.
  apply exchange_actions.
Qed.

Lemma mytoken_branch_posts_once_witness :
  actions (get_access_token Fake.env None (Some "egi") (Some "bad-mytoken")
             (PStr "https://mytoken.data.kit.edu"))
  = [EvHttpPost "https://mytoken.data.kit.edu/api/v0/token/access"
       (PDict (<["grant_type" := PStr "mytoken"]>
               (<["mytoken" := PStr "bad-mytoken"]> ∅)))].
Proof.
  destruct (mytoken_branch_posts_once Fake.env None (Some "egi")
              (Some "bad-mytoken") (PStr "https://mytoken.data.kit.edu")
              eq_refl eq_refl) as [Hnone|(url & Hurl & Hposted)].
  - discriminate Hnone.
  - injection Hurl as <-. exact Hposted.
Defined.

(** X5.  What goes wrong in the exchange leaves
    [get_token_from_mytoken_server] as an exception: a server that is not a
    [str] gives [TypeError] before any request; an exception of the POST,
    and one of the JSON decoding of an accepted response, are passed on
    unchanged; and a JSON body that is not an object gives
    [AttributeError]. *)
Theorem exchange_errors_propagate env mytoken :
  (forall server,
     not_str server ->
     get_token_from_mytoken_server env mytoken server
     = (Raise (Exc TypeError ""), []))
  /\ (forall url e,
        requests_post env (url +:+ "/api/v0/token/access")
          (exchange_data mytoken) = Raise e ->
        outcome (get_token_from_mytoken_server env mytoken (PStr url))
        = Raise e)
  /\ (forall url resp e,
        requests_post env (url +:+ "/api/v0/token/access")
          (exchange_data mytoken) = Return resp ->
        ~ 400 <= status_code resp < 600 ->
        json resp = Raise e ->
        outcome (get_token_from_mytoken_server env mytoken (PStr url))
        = Raise e)
  /\ (forall url resp body,
        requests_post env (url +:+ "/api/v0/token/access")
          (exchange_data mytoken) = Return resp ->
        ~ 400 <= status_code resp < 600 ->
        json resp = Return body ->
        (forall d, body <> PDict d) ->
        outcome (get_token_from_mytoken_server env mytoken (PStr url))
        = Raise (Exc AttributeError "")).
Proof.
  split; [|split; [|split]].
  - intros server Hs. unfold get_token_from_mytoken_server.
    destruct server; try done. by destruct (Hs s).
  - intros url e Hpost. unfold get_token_from_mytoken_server, py_add_str.
    rewrite bind_ret. cbv zeta. rewrite outcome_emit.
    by rewrite Hpost.
  - intros url resp e Hpost Hok Hjson.
    rewrite (exchange_unfold _ _ _ _ Hpost), outcome_emit.
    by rewrite (raise_for_status_pass _ Hok), bind_ret, Hjson.
  - intros url resp body Hpost Hok Hjson Hbody.
    rewrite (exchange_unfold _ _ _ _ Hpost), outcome_emit.
    rewrite (raise_for_status_pass _ Hok), bind_ret, Hjson, bind_lift_return.
    destruct body; try done. by destruct (Hbody d).
Qed.

Lemma exchange_errors_propagate_witness :
  get_token_from_mytoken_server Fake.env (PStr "good-mytoken") PNone
    = (Raise (Exc TypeError ""), [])
  /\ outcome (get_token_from_mytoken_server Fake.env (PStr "good-mytoken")
                (PStr "https://nowhere.example"))
     = Raise (Exc ConnectionError "Name or service not known").
Proof.
  pose proof (exchange_errors_propagate Fake.env (PStr "good-mytoken"))
    as (Hserver & Hpost & _).
  split.
  - apply Hserver. intros s. discriminate.
  - apply Hpost. reflexivity.
Defined.

(** ** [check_token], continued *)

Lemma py_int_outcome env v z :
  outcome (py_int env v) = Return z -> py_int env v = ret z.
Proof.
  pose proof (py_int_stays_local env v) as Ht.
  destruct (py_int env v) as [r t]. simpl in *. by intros ->; subst.
Qed.

(** X6.  [check_token] returns nothing but [None] or the token it was
    given, and it returns the token only when the decoder accepted it, its
    [exp] claim converts to an integer, and at least
    [_MIN_ACCESS_TOKEN_TIME] seconds are left on the clock. *)
Theorem check_token_returns_only_fresh env token verbose v :
  outcome (check_token env token verbose) = Return v ->
  v = PNone
  \/ (v = PStr token
      /\ exists e, expires_at env token e
                   /\ _MIN_ACCESS_TOKEN_TIME <= e - time_time env).
Proof.
  unfold check_token, decode_token.
  destruct (jwt_decode env token) as [payload|x] eqn:Hd.
  - rewrite bind_ret. unfold py_getitem.
    destruct (payload !! "exp") as [exp|] eqn:Hexp; [|done].
    rewrite bind_ret.
    destruct (outcome (py_int env exp)) as [e|x] eqn:Hint.
    + apply py_int_outcome in Hint. rewrite Hint, bind_ret.
      destruct (Z.ltb_spec (e - time_time env) _MIN_ACCESS_TOKEN_TIME).
      * intros [= <-]. by left.
      * intros Hv. right.
        assert (v = PStr token) as ->.
        { destruct verbose.
          - destruct (outcome (report_expiry env e (e - time_time env)))
              as [[]|x] eqn:Hr.
            + rewrite (outcome_bind _ tt) in Hv by done. by injection Hv.
            + by rewrite (outcome_bind_raise _ x) in Hv.
          - by injection Hv. }
        split; [done|]. exists e. split; [by exists payload, exp|done].
    + intros Hv. by rewrite (outcome_bind_raise _ x) in Hv.
  - destruct (isinstance x InvalidTokenError); [|done].
    intros [= <-]. by left.
Qed.

Lemma check_token_returns_only_fresh_witness :
  exists e, expires_at Fake.env "text.token.sig" e
            /\ _MIN_ACCESS_TOKEN_TIME <= e - time_time Fake.env.
Proof.
  destruct (check_token_returns_only_fresh Fake.env "text.token.sig" true
              (PStr "text.token.sig") eq_refl)
    as [Hnone|[_ Hfresh]].
  - discriminate Hnone.
  - exact Hfresh.
Defined.

(** X7.  For a token that is still good, the verbose [check_token] prints
    two lines and returns the token: the expiry date as the formatter gives
    it for [exp], then the time left, in seconds when it is under 24 hours
    (between 30 and 86399) and else in whole days [d], where [d] is at
    least 1 and the time left lies in [[86400 d, 86400 (d + 1))]. *)
Theorem verbose_report_bounds env token e when :
  expires_at env token e ->
  _MIN_ACCESS_TOKEN_TIME <= e - time_time env ->
  utcfromtimestamp_strftime env e = Return when ->
  exists line,
    check_token env token true
    = (Return (PStr token),
       [EvStdout ("Token is valid until " +:+ when +:+ " UTC");
        EvStdout line])
    /\ ((30 <= e - time_time env < 86400
         /\ line = "Token expires in " +:+ pretty (e - time_time env)
                     +:+ " seconds")
        \/ exists d,
             1 <= d
             /\ 86400 * d <= e - time_time env < 86400 * (d + 1)
             /\ line = "Token expires in " +:+ pretty d +:+ " days").
Proof.
  intros (payload & exp & Hd & Hexp & Hint) Hle Hwhen.
  rewrite (check_token_unfold _ _ _ _ _ _ Hd Hexp Hint).
  unfold _MIN_ACCESS_TOKEN_TIME in *.
  destruct (Z.ltb_spec (e - time_time env) 30); [lia|].
  unfold report_expiry. rewrite Hwhen, bind_lift_return.
  change (24 * 3600) with 86400.
  destruct (Z.ltb_spec (e - time_time env) 86400) as [Hlt|Hge].
  - eexists. split; [reflexivity|]. left. split; [lia|done].
  - eexists. split; [reflexivity|]. right.
    exists ((e - time_time env) `div` 86400). split; [|split; [|done]].
    + apply Z.div_le_lower_bound; lia.
    + pose proof (Z.mul_div_le (e - time_time env) 86400).
      pose proof (Z.mul_succ_div_gt (e - time_time env) 86400). lia.
Qed.

Lemma verbose_report_bounds_witness :
  exists line,
    check_token Fake.env "text.token.sig" true
    = (Return (PStr "text.token.sig"),
       [EvStdout ("Token is valid until " +:+ "1970-01-01 (first day)"
                  +:+ " UTC");
        EvStdout line]).
Proof.
  destruct (verbose_report_bounds Fake.env "text.token.sig" 4600
              "1970-01-01 (first day)") as (line & Hcheck & _).
  - exists (Fake.claims_of (Some (PStr "4600"))), (PStr "4600").
    repeat split; vm_compute; reflexivity.
  - vm_compute. discriminate.
  - reflexivity.
  - by exists line.
Defined.

(** X8.  When the date of a good token cannot be formatted, the verbose
    [check_token] raises the formatter's exception and prints nothing,
    while the plain call returns the token. *)
Theorem verbose_report_failure env token e x :
  expires_at env token e ->
  _MIN_ACCESS_TOKEN_TIME <= e - time_time env ->
  utcfromtimestamp_strftime env e = Raise x ->
  check_token env token true = (Raise x, [])
  /\ check_token env token false = (Return (PStr token), []).
Proof.
  intros He Hle Hwhen. split; [|by apply check_token_fresh with e].
  destruct He as (payload & exp & Hd & Hexp & Hint).
  rewrite (check_token_unfold _ _ _ _ _ _ Hd Hexp Hint).
  destruct (Z.ltb_spec (e - time_time env) _MIN_ACCESS_TOKEN_TIME); [lia|].
  unfold report_expiry. by rewrite Hwhen.
Qed.

Lemma verbose_report_failure_witness :
  check_token
    (with_decoder Fake.env
       (fun _ => Return (Fake.claims_of (Some (PInt 253402300800))))
       1000 Fake.parse_int)
    "any.token.sig" true
  = (Raise (Exc OverflowError ""), []).
Proof.
  refine (proj1 (verbose_report_failure
            (with_decoder Fake.env
               (fun _ => Return (Fake.claims_of (Some (PInt 253402300800))))
               1000 Fake.parse_int)
            "any.token.sig" 253402300800 (Exc OverflowError "") _ _ _)).
  - exists (Fake.claims_of (Some (PInt 253402300800))), (PInt 253402300800).
    repeat split; vm_compute; reflexivity.
  - vm_compute. discriminate.
  - reflexivity.
Defined.

(** ** [get_checkin_id] and the [check] command *)

(** X9.  [get_checkin_id] returns the [sub] claim of any token the decoder
    accepts and does not look at its expiry: a token that [check_token]
    turns down as expired still gives its subject.  A token the decoder
    rejects gives [None] after the error line, and a payload without [sub]
    raises [KeyError]. *)
Theorem checkin_id_ignores_expiry env token :
  (forall payload sub,
     jwt_decode env token = Return payload ->
     payload !! "sub" = Some sub ->
     get_checkin_id env token = (Return sub, [])
     /\ forall e,
          expires_at env token e ->
          e - time_time env < _MIN_ACCESS_TOKEN_TIME ->
          check_token env token false = (Return PNone, []))
  /\ (malformed env token ->
      get_checkin_id env token
      = (Return PNone, [EvStderr "Error: Invalid access token."]))
  /\ (forall payload,
        jwt_decode env token = Return payload ->
        payload !! "sub" = None ->
        get_checkin_id env token = (Raise (Exc KeyError ""), [])).
Proof.
  split; [|split].
  - intros payload sub Hd Hsub. split.
    + unfold get_checkin_id.
      rewrite (decode_token_accepts _ _ _ Hd), bind_ret.
      unfold py_getitem. by rewrite Hsub.
    + intros e He Hlt. by apply check_token_stale with e.
  - intros Hm. unfold get_checkin_id.
    by rewrite (decode_token_rejects _ _ Hm).
  - intros payload Hd Hsub. unfold get_checkin_id.
    rewrite (decode_token_accepts _ _ _ Hd), bind_ret.
    unfold py_getitem. by rewrite Hsub.
Qed.

Lemma checkin_id_ignores_expiry_witness :
  get_checkin_id Fake.env "stale.token.sig"
    = (Return (PStr "user@egi.eu"), [])
  /\ check_token Fake.env "stale.token.sig" false = (Return PNone, []).
Proof.
  destruct (proj1 (checkin_id_ignores_expiry Fake.env "stale.token.sig")
              (Fake.claims_of (Some (PInt 1029))) (PStr "user@egi.eu")
              eq_refl eq_refl) as [Hid Hcheck].
  split; [exact Hid|].
  apply (Hcheck 1029).
  - exists (Fake.claims_of (Some (PInt 1029))), (PInt 1029).
    repeat split; vm_compute; reflexivity.
  - vm_compute. reflexivity.
Defined.



(** ** [token_list_vos], continued *)

Lemma oidc_discover_actions env oidc_url :
  actions (oidc_discover env oidc_url) = []
  \/ exists issuer,
       oidc_url = PStr issuer /\
       actions (oidc_discover env oidc_url)
       = [EvHttpGet
            (PStr (issuer +:+ "/.well-known/openid-configuration")) []].
Proof.
  unfold oidc_discover.
  destruct oidc_url as [| | | |issuer| |]; try by left.
  right. exists issuer. split; [done|].
  unfold py_add_str. rewrite bind_ret, actions_emit. f_equal.
  destruct (requests_get env _ _) as [resp|e]; [|done].
  rewrite bind_lift_return, actions_bind, raise_for_status_silent.
  by destruct (outcome (raise_for_status resp)) as [[]|e].
Qed.

Lemma after_userinfo_silent body : actions (after_userinfo body) = [].
Proof.
  unfold after_userinfo.
  rewrite actions_bind, py_get_silent.
  destruct (outcome (py_get _ _ _)) as [ents|e]; [|done].
  rewrite actions_bind, py_iter_silent.
  destruct (outcome (py_iter ents)) as [claims|e]; [|done].
  rewrite actions_bind, collect_vos_silent.
  by destruct (outcome (collect_vos _ _ _)).
Qed.

Lemma after_discovery_actions env token oidc_ep :
  actions (after_discovery env token oidc_ep) = []
  \/ exists endpoint,
       actions (after_discovery env token oidc_ep)
       = [EvHttpGet endpoint [("Authorization", "Bearer " +:+ token)]].
Proof.
  unfold after_discovery.
  rewrite actions_bind, py_getitem_silent.
  destruct (outcome (py_getitem oidc_ep _)) as [endpoint|e]; [|by left].
  right. exists endpoint. cbv zeta. rewrite app_nil_l, actions_emit. f_equal.
  destruct (requests_get env _ _) as [resp|e]; [|done].
  rewrite bind_lift_return, actions_bind, raise_for_status_silent.
  destruct (outcome (raise_for_status resp)) as [[]|e]; [|done].
  destruct (json resp) as [body|e]; [|done].
  rewrite bind_lift_return. apply after_userinfo_silent.
Qed.

Lemma token_list_vos_unfold env token :
  token_list_vos env token
  = (payload <- decode_token env token ;;
     oidc_url <- py_getitem payload "iss" ;;
     oidc_ep <- oidc_discover env oidc_url ;;
     after_discovery env token oidc_ep).
Proof. reflexivity. Qed.

Lemma py_getitem_outcome v key x :
  outcome (py_getitem v key) = Return x -> py_getitem v key = ret x.
Proof.
  pose proof (py_getitem_silent v key) as Ht.
  destruct (py_getitem v key) as [r t]. simpl in *. by intros ->; subst.
Qed.

Lemma oidc_discover_str env issuer :
  oidc_discover env (PStr issuer)
  = (match requests_get env
             (PStr (issuer +:+ "/.well-known/openid-configuration")) [] with
     | Return resp =>
         if (400 <=? status_code resp) && (status_code resp <? 600)
         then Raise (Exc HTTPError "")
         else json resp
     | Raise e => Raise e
     end,
     [EvHttpGet (PStr (issuer +:+ "/.well-known/openid-configuration")) []]).
Proof.
  unfold oidc_discover, py_add_str. rewrite bind_ret, bind_emit.
  destruct (requests_get env _ _) as [resp|e]; [|done].
  rewrite bind_lift_return. unfold raise_for_status.
  destruct (_ && _); [done|]. rewrite bind_ret. by destruct (json resp).
Qed.

Lemma after_discovery_requests env token oidc_ep :
  actions (after_discovery env token oidc_ep) = []
  \/ exists endpoint,
       py_getitem oidc_ep "userinfo_endpoint" = ret endpoint /\
       actions (after_discovery env token oidc_ep)
       = [EvHttpGet endpoint [("Authorization", "Bearer " +:+ token)]].
Proof.
  unfold after_discovery.
  rewrite actions_bind, py_getitem_silent.
  destruct (outcome (py_getitem oidc_ep _)) as [endpoint|e] eqn:Hep;
    [|by left].
  right. exists endpoint. split; [by apply py_getitem_outcome|].
  cbv zeta. rewrite app_nil_l, actions_emit. f_equal.
  destruct (requests_get env _ _) as [resp|e]; [|done].
  rewrite bind_lift_return, actions_bind, raise_for_status_silent.
  destruct (outcome (raise_for_status resp)) as [[]|e]; [|done].
  destruct (json resp) as [body|e]; [|done].
  rewrite bind_lift_return. apply after_userinfo_silent.
Qed.

(** X11.  Whatever the collaborators answer, [token_list_vos] does at most
    this: it sends a GET without headers to
    [<iss>/.well-known/openid-configuration], where [iss] is the issuer
    claim of the decoded token, and then a GET to the [userinfo_endpoint]
    of the document that came back, with the token in the
    [Authorization: Bearer] header.  Otherwise its trace is empty or the
    one error line of a rejected token.  So it never posts, never calls the
    agent, prints nothing to standard output, and sends the token nowhere
    but to the discovered endpoint. *)
Theorem token_list_vos_requests env token :
  let t := actions (token_list_vos env token) in
  t = []
  \/ t = [EvStderr "Error: Invalid access token."]
  \/ exists payload issuer,
       jwt_decode env token = Return payload /\
       payload !! "iss" = Some (PStr issuer) /\
       let discover :=
         EvHttpGet (PStr (issuer +:+ "/.well-known/openid-configuration"))
           [] in
       (t = [discover]
        \/ exists discovery oidc_ep endpoint,
             requests_get env
               (PStr (issuer +:+ "/.well-known/openid-configuration")) []
               = Return discovery /\
             json discovery = Return oidc_ep /\
             py_getitem oidc_ep "userinfo_endpoint" = ret endpoint /\
             t = [discover;
                  EvHttpGet endpoint
                    [("Authorization", "Bearer " +:+ token)]]).
Proof.
  cbv zeta. remember (actions (token_list_vos env token)) as t eqn:Ht.
  rewrite token_list_vos_unfold in Ht. unfold decode_token in Ht.
  destruct (jwt_decode env token) as [payload|x] eqn:Hd.
  - rewrite bind_ret in Ht. unfold py_getitem in Ht.
    destruct (payload !! "iss") as [v|] eqn:Hiss; [|by left].
    rewrite bind_ret in Ht.
    destruct v as [| | | |issuer| |]; try by left.
    right. right. exists payload, issuer. split; [done|]. split; [done|].
    rewrite oidc_discover_str in Ht.
    destruct (requests_get env _ _) as [discovery|e] eqn:Hget; [|by left].
    destruct (_ && _); [by left|].
    destruct (json discovery) as [oidc_ep|e] eqn:Hjson; [|by left].
    rewrite bind_return in Ht. simpl in Ht.
    destruct (after_discovery_requests env token oidc_ep)
      as [Hnone|(endpoint & Hep & Hsent)].
    + left. by rewrite Ht, Hnone.
    + right. exists discovery, oidc_ep, endpoint. by rewrite Ht, Hsent.
  - destruct (isinstance x InvalidTokenError); [|by left].
    right. by left.
Qed.

(** X12.  When the identity provider turns a request down, nothing is
    listed: an error status (4xx, 5xx) for the discovery makes
    [token_list_vos] raise [HTTPError] after that one request, so that the
    token has not been sent; an error status for the user-info request
    makes it raise [HTTPError] after the two requests. *)
Theorem identity_provider_errors env token payload issuer discovery :
  jwt_decode env token = Return payload ->
  payload !! "iss" = Some (PStr issuer) ->
  requests_get env (PStr (issuer +:+ "/.well-known/openid-configuration")) []
    = Return discovery ->
  let discover :=
    EvHttpGet (PStr (issuer +:+ "/.well-known/openid-configuration")) [] in
  (400 <= status_code discovery < 600 ->
     token_list_vos env token = (Raise (Exc HTTPError ""), [discover]))
  /\ (forall endpoints endpoint userinfo,
        ~ 400 <= status_code discovery < 600 ->
        json discovery = Return (PDict endpoints) ->
        endpoints !! "userinfo_endpoint" = Some endpoint ->
        requests_get env endpoint [("Authorization", "Bearer " +:+ token)]
          = Return userinfo ->
        400 <= status_code userinfo < 600 ->
        token_list_vos env token
        = (Raise (Exc HTTPError ""),
           [discover;
            EvHttpGet endpoint [("Authorization", "Bearer " +:+ token)]])).
Proof.
  intros Hd Hiss Hget discover.
  assert (token_list_vos env token
          = (oidc_ep <- oidc_discover env (PStr issuer) ;;
             after_discovery env token oidc_ep)) as ->.
  { rewrite token_list_vos_unfold, (decode_token_accepts _ _ _ Hd), bind_ret.
    unfold py_getitem. by rewrite Hiss, bind_ret. }
  rewrite oidc_discover_str, Hget. split.
  - intros [H1 H2].
    destruct (Z.leb_spec 400 (status_code discovery)); [|lia].
    by destruct (Z.ltb_spec (status_code discovery) 600); [|lia].
  - intros endpoints endpoint userinfo Hok Hjson Hep Hget2 Herr.
    assert ((400 <=? status_code discovery)
            && (status_code discovery <? 600) = false) as ->.
    { destruct (Z.leb_spec 400 (status_code discovery));
        destruct (Z.ltb_spec (status_code discovery) 600); try done. lia. }
    rewrite Hjson, bind_return. unfold after_discovery, py_getitem.
    rewrite Hep, bind_ret. cbv zeta. rewrite bind_emit, Hget2.
    by rewrite bind_lift_return, (raise_for_status_error _ Herr).
Qed.

Lemma identity_provider_errors_witness :
  token_list_vos
    (Scenario.provider
       (Return {| status_code := 404;
                  json := Raise (Exc JSONDecodeError "") |})
       (Scenario.ok PNone))
    "fresh.token.sig"
  = (Raise (Exc HTTPError ""),
     [EvHttpGet
        (PStr (Fake.issuer +:+ "/.well-known/openid-configuration")) []]).
Proof.
  refine (proj1 (identity_provider_errors
            (Scenario.provider
               (Return {| status_code := 404;
                          json := Raise (Exc JSONDecodeError "") |})
               (Scenario.ok PNone))
            "fresh.token.sig"
            (Fake.claims_of (Some (PInt 1030))) Fake.issuer
            {| status_code := 404; json := Raise (Exc JSONDecodeError "") |}
            eq_refl eq_refl eq_refl) _).
  simpl. lia.
Defined.

Lemma token_list_vos_userinfo env token body :
  userinfo_document env token body ->
  outcome (token_list_vos env token) = outcome (after_userinfo body).
Proof.
  intros (payload & issuer & discovery & endpoints & endpoint & userinfo
          & Hd & Hiss & Hget1 & Hok1 & Hj1 & Hep & Hget2 & Hok2 & Hj2).
  rewrite token_list_vos_unfold.
  rewrite (outcome_bind _ (PDict payload))
    by by rewrite (decode_token_accepts _ _ _ Hd).
  rewrite (outcome_bind _ (PStr issuer)) by (simpl; by rewrite Hiss).
  rewrite (outcome_bind _ (PDict endpoints))
    by by rewrite (oidc_discover_ok _ _ _ _ Hget1 Hok1 Hj1).
  unfold after_discovery.
  rewrite (outcome_bind _ endpoint) by (simpl; by rewrite Hep).
  cbv zeta. rewrite outcome_emit.
  rewrite Hget2, bind_lift_return, (raise_for_status_pass _ Hok2), bind_ret.
  by rewrite Hj2, bind_lift_return.
Qed.

Lemma sorted_empty : sorted ∅ = [].
Proof. unfold sorted. by rewrite elements_empty. Qed.

Lemma single_character_no_match ch :
  re_match compiled_VO_PATTERN (String ch "") = None.
Proof.
  unfold re_match, compiled_VO_PATTERN. cbn [rmatch].
  by destruct (Ascii.eqb _ ch).
Qed.

Lemma collect_vos_characters (chars : list ascii) (vos : gset string) :
  collect_vos compiled_VO_PATTERN
    ((fun ch => PStr (String ch "")) <$> chars) vos = ret vos.
Proof.
  induction chars as [|ch chars IH]; [done|].
  rewrite fmap_cons. cbn [collect_vos].
  by rewrite single_character_no_match.
Qed.

Lemma collect_vos_not_str pattern claims vos :
  Exists not_str claims ->
  outcome (collect_vos pattern claims vos) = Raise (Exc TypeError "").
Proof.
  intros Hex. revert vos.
  induction Hex as [claim claims Hclaim|claim claims _ IH]; intros vos.
  - destruct claim; try done. by destruct (Hclaim s).
  - destruct claim; try done. simpl.
    destruct (re_match pattern s) as [m|]; [|apply IH].
    destruct (group1 m); [apply IH|done].
Qed.

(** X13.  A user-info document without the [eduperson_entitlement] claim
    gives the empty list, with no error. *)
Theorem no_entitlement_claim env token d :
  userinfo_document env token (PDict d) ->
  d !! "eduperson_entitlement" = None ->
  outcome (token_list_vos env token) = Return [].
Proof.
  intros Hdoc Hnone. rewrite (token_list_vos_userinfo _ _ _ Hdoc).
  unfold after_userinfo, py_get. rewrite Hnone, bind_ret.
  simpl py_iter. rewrite bind_ret. simpl collect_vos.
  by rewrite bind_ret, sorted_empty.
Qed.

Lemma userinfo_document_scenario body :
  userinfo_document (Scenario.answering body) "fresh.token.sig" body.
Proof.
  exists (Fake.claims_of (Some (PInt 1030))), Fake.issuer,
    {| status_code := 200;
       json := Return (PDict (<["userinfo_endpoint" :=
                                 PStr Fake.userinfo_url]> ∅)) |},
    (<["userinfo_endpoint" := PStr Fake.userinfo_url]> ∅),
    (PStr Fake.userinfo_url),
    {| status_code := 200; json := Return body |}.
  split_and!; try reflexivity; simpl; lia.
Defined.

Lemma no_entitlement_claim_witness :
  outcome (token_list_vos
             (Scenario.answering (PDict (<["sub" := PStr "user@egi.eu"]> ∅)))
             "fresh.token.sig")
  = Return [].
Proof.
  exact (no_entitlement_claim
           (Scenario.answering (PDict (<["sub" := PStr "user@egi.eu"]> ∅)))
           "fresh.token.sig" (<["sub" := PStr "user@egi.eu"]> ∅)
           (userinfo_document_scenario _) eq_refl).
Defined.

(** X14.  When the identity provider gives [eduperson_entitlement] as one
    string instead of a list of strings, [token_list_vos] loops over its
    characters, none of which is an entitlement: the result is the empty
    list, with no error, whatever the string says. *)
Theorem entitlement_as_text env token d text :
  userinfo_document env token (PDict d) ->
  d !! "eduperson_entitlement" = Some (PStr text) ->
  outcome (token_list_vos env token) = Return [].
Proof.
  intros Hdoc Htext. rewrite (token_list_vos_userinfo _ _ _ Hdoc).
  unfold after_userinfo, py_get. rewrite Htext, bind_ret.
  simpl py_iter. rewrite bind_ret, collect_vos_characters.
  by rewrite bind_ret, sorted_empty.
Qed.

Lemma entitlement_as_text_witness :
  outcome (token_list_vos
             (Scenario.answering
                (PDict (Scenario.userinfo
                          (PStr Scenario.member_entitlement))))
             "fresh.token.sig")
  = Return []
  /\ vo_of Scenario.member_entitlement = Some "vo.example.eu".
Proof.
  split; [|vm_compute; reflexivity].
  exact (entitlement_as_text
           (Scenario.answering
              (PDict (Scenario.userinfo (PStr Scenario.member_entitlement))))
           "fresh.token.sig"
           (Scenario.userinfo (PStr Scenario.member_entitlement))
           Scenario.member_entitlement
           (userinfo_document_scenario _) eq_refl).
Defined.

(** X15.  An [eduperson_entitlement] that cannot be looped over ([null], a
    number, a boolean), or a list with an item that is not a string, makes
    [token_list_vos] raise [TypeError]: one bad item discards the whole
    listing, the member entitlements beside it included. *)
Theorem entitlement_not_text env token d entitlements :
  userinfo_document env token (PDict d) ->
  d !! "eduperson_entitlement" = Some entitlements ->
  (match entitlements with
   | PNone | PBool _ | PInt _ | PFloat _ => True
   | PList items => Exists not_str items
   | PStr _ | PDict _ => False
   end) ->
  outcome (token_list_vos env token) = Raise (Exc TypeError "").
Proof.
  intros Hdoc Hents Hbad. rewrite (token_list_vos_userinfo _ _ _ Hdoc).
  unfold after_userinfo, py_get. rewrite Hents, bind_ret.
  destruct entitlements as [| | | | |items|]; try done.
  simpl py_iter. rewrite bind_ret.
  by apply outcome_bind_raise, collect_vos_not_str.
Qed.

Lemma entitlement_not_text_witness :
  outcome (token_list_vos
             (Scenario.answering
                (PDict (Scenario.userinfo
                          (PList [PStr Scenario.member_entitlement;
                                  PInt 7]))))
             "fresh.token.sig")
  = Raise (Exc TypeError "").
Proof.
  refine (entitlement_not_text
            (Scenario.answering
               (PDict (Scenario.userinfo
                         (PList [PStr Scenario.member_entitlement;
                                 PInt 7]))))
            "fresh.token.sig"
            (Scenario.userinfo
               (PList [PStr Scenario.member_entitlement; PInt 7]))
            (PList [PStr Scenario.member_entitlement; PInt 7])
            (userinfo_document_scenario _) eq_refl _).
  simpl. apply Exists_cons_tl, Exists_cons_hd. intros s. discriminate.
Defined.

(** X16.  The listing depends on which entitlements the user has, not on
    their order or on how often each is repeated: two answers with the same
    entitlements, by whatever provider and for whatever token, give the
    same list. *)
Theorem vo_list_depends_on_set env token ents env' token' ents' :
  reports_entitlements env token ents ->
  reports_entitlements env' token' ents' ->
  (forall claim, claim ∈ ents <-> claim ∈ ents') ->
  outcome (token_list_vos env token) = outcome (token_list_vos env' token').
Proof.
  intros Hrep Hrep' Hsame.
  rewrite (token_list_vos_reported _ _ _ Hrep).
  rewrite (token_list_vos_reported _ _ _ Hrep').
  do 2 f_equal. apply set_eq. intros g.
  rewrite !elem_of_list_to_set, !list_elem_of_omap.
  split; intros (claim & Hin & Hvo); exists claim; by rewrite ?Hsame in *.
Qed.

Lemma reports_entitlements_scenario ents :
  reports_entitlements
    (Scenario.answering (PDict (Scenario.userinfo (PList (PStr <$> ents)))))
    "fresh.token.sig" ents.
Proof.
  exists (Fake.claims_of (Some (PInt 1030))), Fake.issuer,
    {| status_code := 200;
       json := Return (PDict (<["userinfo_endpoint" :=
                                 PStr Fake.userinfo_url]> ∅)) |},
    (<["userinfo_endpoint" := PStr Fake.userinfo_url]> ∅),
    (PStr Fake.userinfo_url),
    {| status_code := 200;
       json := Return (PDict (Scenario.userinfo (PList (PStr <$> ents)))) |},
    (Scenario.userinfo (PList (PStr <$> ents))).
  split_and!; try reflexivity; simpl; lia.
Defined.

Lemma vo_list_depends_on_set_witness :
  outcome (token_list_vos
             (Scenario.answering (PDict (Scenario.userinfo (PList (PStr <$>
                ["not-a-matching-string"; Scenario.member_entitlement;
                 Scenario.member_entitlement])))))
             "fresh.token.sig")
  = outcome (token_list_vos
               (Scenario.answering (PDict (Scenario.userinfo (PList (PStr <$>
                  [Scenario.member_entitlement; "not-a-matching-string"])))))
               "fresh.token.sig").
Proof.
  apply (vo_list_depends_on_set _ _
           ["not-a-matching-string"; Scenario.member_entitlement;
            Scenario.member_entitlement]
           _ _
           [Scenario.member_entitlement; "not-a-matching-string"]
           (reports_entitlements_scenario _)
           (reports_entitlements_scenario _)).
  intros claim. rewrite !elem_of_cons, !elem_of_nil. tauto.
Defined.

Lemma vo_names_one_line env token ents vos :
  reports_entitlements env token ents ->
  outcome (token_list_vos env token) = Return vos ->
  Forall one_line vos.
Proof.
  intros Hrep Hout. rewrite (token_list_vos_reported _ _ _ Hrep) in Hout.
  injection Hout as <-. apply Forall_forall. intros name Hin.
  apply (proj2 (sorted_spec _)) in Hin.
  rewrite elem_of_list_to_set, list_elem_of_omap in Hin.
  destruct Hin as (claim & _ & Hvo).
  by apply vo_of_shape in Hvo as (? & ? & ? & ? & ? & _ & _ & Hline & _).
Qed.

Lemma token_list_vos_reported_actions env token ents :
  reports_entitlements env token ents ->
  exists issuer endpoint,
    actions (token_list_vos env token)
    = [EvHttpGet (PStr (issuer +:+ "/.well-known/openid-configuration")) [];
       EvHttpGet endpoint [("Authorization", "Bearer " +:+ token)]].
Proof.
  intros (payload & issuer & discovery & endpoints & endpoint & userinfo
          & body & Hd & Hiss & Hget1 & Hok1 & Hj1 & Hep & Hget2 & Hok2
          & Hj2 & Hents).
  exists issuer, endpoint.
  rewrite token_list_vos_unfold, (decode_token_accepts _ _ _ Hd), bind_ret.
  unfold py_getitem at 1. rewrite Hiss, bind_ret.
  rewrite (oidc_discover_ok _ _ _ _ Hget1 Hok1 Hj1), bind_return.
  simpl actions. f_equal.
  unfold after_discovery, py_getitem. rewrite Hep, bind_ret. cbv zeta.
  rewrite actions_emit. f_equal.
  rewrite Hget2, bind_lift_return, (raise_for_status_pass _ Hok2), bind_ret.
  rewrite Hj2, bind_lift_return. apply after_userinfo_silent.
Qed.

(** X17.  Every name [token_list_vos] returns is a non-empty piece of one
    line (no newline in it) that stood, in one of the entitlements, right
    after [urn:mace:egi.eu:group:] and right before a colon. *)
Theorem vo_names_are_well_formed env token ents vos :
  reports_entitlements env token ents ->
  outcome (token_list_vos env token) = Return vos ->
  Forall (fun name =>
            name <> "" /\ one_line name /\
            exists claim d rest,
              claim ∈ ents /\ d <> newline /\
              claim = "urn:mace:egi" +:+ String d "eu:group:" +:+ name
                        +:+ ":" +:+ rest) vos.
Proof.
  intros Hrep Hout. rewrite (token_list_vos_reported _ _ _ Hrep) in Hout.
  injection Hout as <-. apply Forall_forall. intros name Hin.
  apply (proj2 (sorted_spec _)) in Hin.
  rewrite elem_of_list_to_set, list_elem_of_omap in Hin.
  destruct Hin as (claim & Hclaim & Hvo).
  apply vo_of_shape in Hvo
    as (d1 & d2 & d3 & roles & rest & -> & Hne & Hline & _ & Hd1 & _).
  split; [done|]. split; [done|].
  by eexists _, d1, _.
Qed.

Lemma vo_names_are_well_formed_witness :
  Forall (fun name => name <> "" /\ one_line name) ["vo.example.eu"].
Proof.
  eapply Forall_impl.
  - apply (vo_names_are_well_formed Fake.env "fresh.token.sig"
             example_entitlements ["vo.example.eu"]).
    + exists (Fake.claims_of (Some (PInt 1030))), Fake.issuer,
        {| status_code := 200;
           json := Return (PDict (<["userinfo_endpoint" :=
                                     PStr Fake.userinfo_url]> ∅)) |},
        (<["userinfo_endpoint" := PStr Fake.userinfo_url]> ∅),
        (PStr Fake.userinfo_url),
        {| status_code := 200;
           json := Return (PDict (<["eduperson_entitlement" :=
                       PList (PStr <$> example_entitlements)]> ∅)) |},
        (<["eduperson_entitlement" :=
             PList (PStr <$> example_entitlements)]> ∅).
      split_and!; try reflexivity; simpl; lia.
    + vm_compute. reflexivity.
  - intros name (Hne & Hline & _). by split.
Defined.

(** ** The [list_vos] command *)

Lemma split_lines_cons (text : string) :
  exists line lines, split_lines text = line :: lines.
Proof.
  destruct text as [|ch text]; simpl; [by eexists _, _|].
  destruct (Ascii.eqb ch newline); [by eexists _, _|].
  destruct (split_lines text); by eexists _, _.
Qed.

Lemma split_lines_app (line text : string) :
  one_line line ->
  split_lines (line +:+ String newline text) = line :: split_lines text.
Proof.
  intros Hline. induction line as [|ch line IH].
  - by rewrite string_app_nil_l.
  - inversion Hline; subst. rewrite string_app_cons. simpl.
    destruct (Ascii.eqb_spec ch newline); [done|]. by rewrite IH.
Qed.

Lemma split_lines_one_line (line : string) :
  one_line line -> split_lines line = [line].
Proof.
  intros Hline. induction line as [|ch line IH]; [done|].
  inversion Hline; subst. simpl.
  destruct (Ascii.eqb_spec ch newline); [done|]. by rewrite IH.
Qed.

Lemma split_lines_join (names : list string) :
  names <> [] ->
  Forall one_line names ->
  split_lines (str_join (String newline "") names) = names.
Proof.
  intros Hne Hall. induction Hall as [|name names Hname Hall IH]; [done|].
  destruct names as [|name' names].
  - by apply split_lines_one_line.
  - change (str_join (String newline "") (name :: name' :: names))
      with (name +:+ String newline ""
              +:+ str_join (String newline "") (name' :: names)).
    rewrite string_app_cons, string_app_nil_l, split_lines_app by done.
    by rewrite IH.
Qed.

(** X18.  The [list_vos] command prints, in one [print], what
    [token_list_vos] returned, the names joined by newlines; as no name has
    a newline in it, cutting the printed text at the newlines gives the
    list back, one VO per line.  With no VO at all it prints an empty
    line. *)
Theorem list_vos_prints_names env token ents :
  reports_entitlements env token ents ->
  exists vos,
    outcome (token_list_vos env token) = Return vos
    /\ outcome (list_vos env token) = Return tt
    /\ stdout_lines (actions (list_vos env token))
       = [str_join (String newline "") vos]
    /\ (vos <> [] ->
        split_lines (str_join (String newline "") vos) = vos)
    /\ (vos = [] -> str_join (String newline "") vos = "").
Proof.
  intros Hrep.
  pose proof (token_list_vos_reported _ _ _ Hrep) as Hout.
  eexists. split; [exact Hout|]. split; [|split; [|split]].
  - unfold list_vos. by rewrite (outcome_bind _ _ _ Hout).
  - unfold list_vos. rewrite actions_bind, Hout. unfold stdout_lines.
    destruct (token_list_vos_reported_actions _ _ _ Hrep)
      as (issuer & endpoint & ->).
    reflexivity.
  - intros Hne. apply split_lines_join; [done|].
    by apply (vo_names_one_line _ _ _ _ Hrep Hout).
  - by intros ->.
Qed.

Lemma list_vos_prints_names_witness :
  stdout_lines (actions (list_vos
     (Scenario.answering (PDict (Scenario.userinfo (PList (PStr <$>
        ["urn:mace:egi.eu:group:vo.other.eu:role=member#aai.egi.eu";
         Scenario.member_entitlement])))))
     "fresh.token.sig"))
  = ["vo.example.eu" +:+ String newline "vo.other.eu"].
Proof.
  destruct (list_vos_prints_names _ _ _
              (reports_entitlements_scenario
                 ["urn:mace:egi.eu:group:vo.other.eu:role=member#aai.egi.eu";
                  Scenario.member_entitlement]))
    as (vos & Hout & _ & Hprinted & _).
  rewrite Hprinted. f_equal.
  assert (vos = ["vo.example.eu"; "vo.other.eu"]) as ->; [|reflexivity].
  assert (Return vos = Return (A:=list string)
                         ["vo.example.eu"; "vo.other.eu"]) as Heq.
  { rewrite <- Hout. vm_compute. reflexivity. }
  by injection Heq.
Defined.
